(** * Deployment topology of the ECS microservices example

    A shallow embedding of the stage programs [03-custom-image.ts] and the
    multi-service stage with autoscaling, of the validation-record
    deduplicator [uniqWith] they share, and of the request router of
    [todo-api/server.js].

    The stage programs are sequences of resource declarations
    ([new awsClassic.lb.LoadBalancer("app-lb", {...})]).  Each declaration is
    kept as data: its provider type, its logical name, its argument object
    and its [dependsOn] option.  The provisioning engine that consumes the
    declarations is an external collaborator; only its scheduling discipline
    is modelled, as a step relation. *)

From stdpp Require Import base list strings pretty gmap sets relations sorting.
From Stdlib Require Import ZArith Lia Ascii.

#[local] Open Scope Z_scope.
#[local] Set Warnings "-clear-no-such-hyp".

(** ** JavaScript array helpers used by [uniqWith] *)

(** [arr.findIndex(p)], scanning from position [index]: the position of the
    first element satisfying [p], or [-1]. *)
Fixpoint findIndex_from {A} (p : A → bool) (arr : list A) (index : Z) : Z :=
  match arr with
  | [] => -1
  | step :: rest => if p step then index else findIndex_from p rest (index + 1)
  end.

Definition findIndex {A} (p : A → bool) (arr : list A) : Z :=
  findIndex_from p arr 0.

(** [arr.filter((element, index) => p element index)], scanning from
    position [index]. *)
Fixpoint filter_from {A} (p : A → Z → bool) (arr : list A) (index : Z) : list A :=
  match arr with
  | [] => []
  | element :: rest =>
      if p element index
      then element :: filter_from p rest (index + 1)
      else filter_from p rest (index + 1)
  end.

Definition filterIndexed {A} (p : A → Z → bool) (arr : list A) : list A :=
  filter_from p arr 0.

(** [const uniqWith = (arr, fn) =>
      arr.filter((element, index) =>
        arr.findIndex((step) => fn(element, step)) === index)] *)
Definition uniqWith {A} (arr : list A) (fn : A → A → bool) : list A :=
  filterIndexed
    (λ element index, findIndex (λ step, fn element step) arr =? index) arr.

(** [arr.map((x, index) => f x index)] is stdpp's [imap (λ index x, f x index)],
    and [arr.forEach] with a constructor call in its body registers one
    declaration per element, in order: again an [imap]. *)

(** ** Validation challenges *)

(** [awsClassic.types.output.acm.CertificateDomainValidationOption]: the
    domain the challenge was issued for, and the DNS record that answers it. *)
Record CertificateDomainValidationOption := {
  domainName : string;
  resourceRecordName : string;
  resourceRecordType : string;
  resourceRecordValue : string;
}.

(** The comparator handed to [uniqWith]:
    [x.resourceRecordType === y.resourceRecordType &&
     x.resourceRecordValue === y.resourceRecordValue &&
     x.resourceRecordName === y.resourceRecordName] *)
Definition sameRecord (x y : CertificateDomainValidationOption) : bool :=
  String.eqb (resourceRecordType x) (resourceRecordType y)
  && String.eqb (resourceRecordValue x) (resourceRecordValue y)
  && String.eqb (resourceRecordName x) (resourceRecordName y).

(** The (type, name, value) triple of a challenge. *)
Definition triple (x : CertificateDomainValidationOption) : string * string * string :=
  (resourceRecordType x, resourceRecordName x, resourceRecordValue x).

Definition ch (d n t v : string) : CertificateDomainValidationOption :=
  {| domainName := d; resourceRecordName := n;
     resourceRecordType := t; resourceRecordValue := v |}.


(** ** Declarations of a stage program *)

(** Argument objects.  [Out n a] is the output property [a] of the node
    declared under the logical name [n] ([alb.arn]); [Interp] is a
    [pulumi.interpolate] template. *)
#[local] Set Warnings "-register-all".
Inductive Value :=
| Str (s : string)
| Num (n : Z)
| Bool (b : bool)
| Arr (items : list Value)
| Obj (fields : list (string * Value))
| Out (node attr : string)
| Interp (parts : list Value).

Inductive Kind := Resource | Invoke.

(** [new T(name, args, { dependsOn })], or a provider function call
    ([awsClassic.ec2.getVpcOutput(args)]) bound to a constant.  [d_scope]
    lists the nodes whose outputs the enclosing [apply] callbacks consume:
    the constructor call runs only once they have resolved. *)
Record Decl := {
  d_kind : Kind;
  d_typ : string;
  d_name : string;
  d_args : Value;
  d_dependsOn : list string;
  d_scope : list string;
}.

Definition resource (typ name : string) (args : Value) : Decl :=
  {| d_kind := Resource; d_typ := typ; d_name := name; d_args := args;
     d_dependsOn := []; d_scope := [] |}.

Definition invoke (fn name : string) (args : Value) : Decl :=
  {| d_kind := Invoke; d_typ := fn; d_name := name; d_args := args;
     d_dependsOn := []; d_scope := [] |}.

Definition dependsOn (ds : list Decl) (d : Decl) : Decl :=
  {| d_kind := d_kind d; d_typ := d_typ d; d_name := d_name d; d_args := d_args d;
     d_dependsOn := d_name <$> ds; d_scope := d_scope d |}.

Definition within (outer : Decl) (d : Decl) : Decl :=
  {| d_kind := d_kind d; d_typ := d_typ d; d_name := d_name d; d_args := d_args d;
     d_dependsOn := d_dependsOn d; d_scope := d_name outer :: d_scope d |}.

Notation "k :- v" := (k, v) (at level 60, no associativity, only parsing).
Notation "d .@ a" := (Out (d_name d) a) (at level 9, a at level 0, format "d .@ a").

(** The nodes whose outputs occur in an argument object. *)
Fixpoint outs (v : Value) : list string :=
  match v with
  | Out n _ => [n]
  | Arr items => concat (outs <$> items)
  | Interp parts => concat (outs <$> parts)
  | Obj fields => concat ((λ kv, outs kv.2) <$> fields)
  | _ => []
  end.

(** What must have resolved before a declaration is submitted: the nodes
    its arguments read, its [dependsOn] list, and its enclosing callbacks. *)
Definition deps (d : Decl) : list string :=
  outs (d_args d) ++ d_dependsOn d ++ d_scope d.

(** Property access on an argument object; [None] is [undefined]. *)
Definition field (k : string) (v : Value) : option Value :=
  match v with
  | Obj fields => snd <$> List.find (λ kv, String.eqb kv.1 k) fields
  | _ => None
  end.

Definition items (v : Value) : list Value :=
  match v with Arr l => l | _ => [] end.

(** ** The multi-service stage (two services, routing rule, autoscaling) *)

Module MultipleServices.

Definition defaultVpc : Decl :=
  invoke "awsClassic.ec2.getVpcOutput" "defaultVpc" (Obj ["default" :- Bool true]).

Definition defaultVpcSubnets : Decl :=
  invoke "awsClassic.ec2.getSubnetsOutput" "defaultVpcSubnets"
    (Obj ["filters" :- Arr [Obj ["name" :- Str "vpc-id"; "values" :- Arr [defaultVpc.@"id"]]]]).

Definition group : Decl :=
  resource "awsClassic.ec2.SecurityGroup" "web-secgrp"
    (Obj ["vpcId" :- defaultVpc.@"id";
          "description" :- Str "Enable HTTP & HTTPs access";
          "ingress" :- Arr [
            Obj ["protocol" :- Str "tcp"; "fromPort" :- Num 80; "toPort" :- Num 80;
                 "cidrBlocks" :- Arr [Str "0.0.0.0/0"]];
            Obj ["protocol" :- Str "tcp"; "fromPort" :- Num 443; "toPort" :- Num 443;
                 "cidrBlocks" :- Arr [Str "0.0.0.0/0"]]];
          "egress" :- Arr [
            Obj ["protocol" :- Str "-1"; "fromPort" :- Num 0; "toPort" :- Num 0;
                 "cidrBlocks" :- Arr [Str "0.0.0.0/0"]]]]).

Definition alb : Decl :=
  resource "awsClassic.lb.LoadBalancer" "app-lb"
    (Obj ["securityGroups" :- Arr [group.@"id"];
          "subnets" :- defaultVpcSubnets.@"ids"]).

Definition todoAppTg : Decl :=
  resource "awsClassic.lb.TargetGroup" "todo-app-tg"
    (Obj ["port" :- Num 80; "protocol" :- Str "HTTP"; "targetType" :- Str "ip";
          "vpcId" :- defaultVpc.@"id"]).

Definition todoApiTg : Decl :=
  resource "awsClassic.lb.TargetGroup" "todo-api-tg"
    (Obj ["port" :- Num 80; "protocol" :- Str "HTTP"; "targetType" :- Str "ip";
          "vpcId" :- defaultVpc.@"id";
          "healthCheck" :- Obj ["path" :- Str "/api/"; "interval" :- Num 5; "timeout" :- Num 2]]).

Definition assumeRolePolicy : Value :=
  Obj ["Version" :- Str "2008-10-17";
       "Statement" :- Arr [
         Obj ["Sid" :- Str ""; "Effect" :- Str "Allow";
              "Principal" :- Obj ["Service" :- Str "ecs-tasks.amazonaws.com"];
              "Action" :- Str "sts:AssumeRole"]]].

Definition ecsTaskInitializationRole : Decl :=
  resource "awsClassic.iam.Role" "task-init-role"
    (Obj ["assumeRolePolicy" :- assumeRolePolicy]).

Definition rpa : Decl :=
  resource "awsClassic.iam.RolePolicyAttachment" "task-exec-policy"
    (Obj ["role" :- ecsTaskInitializationRole.@"name";
          "policyArn" :- Str "arn:aws:iam::aws:policy/service-role/AmazonECSTaskExecutionRolePolicy"]).

Definition cluster : Decl :=
  resource "awsnative.ecs.Cluster" "aws-by-example" (Obj []).

Definition httpsRedirectListener : Decl :=
  resource "awsnative.elasticloadbalancingv2.Listener" "https-redirect-listener"
    (Obj ["loadBalancerArn" :- alb.@"arn";
          "port" :- Num 80;
          "protocol" :- Str "HTTP";
          "defaultActions" :- Arr [
            Obj ["type" :- Str "redirect";
                 "redirectConfig" :- Obj ["statusCode" :- Str "HTTP_301";
                                          "host" :- Str "#{host}";
                                          "path" :- Str "/#{path}";
                                          "protocol" :- Str "HTTPS"]]]]).

Definition YOUR_DOMAIN : string := "uncld.net".

Definition certificate : Decl :=
  resource "awsClassic.acm.Certificate" "alb-certificate"
    (Obj ["domainName" :- Str YOUR_DOMAIN; "validationMethod" :- Str "DNS"]).

Definition hostedZone : Decl :=
  invoke "awsClassic.route53.getZone" "hostedZone"
    (Obj ["name" :- Str YOUR_DOMAIN; "privateZone" :- Bool false]).

Definition hostedZoneAlbRecord : Decl :=
  resource "awsClassic.route53.Record" "lb-alias-record"
    (Obj ["name" :- Str YOUR_DOMAIN;
          "zoneId" :- hostedZone.@"id";
          "type" :- Str "A";
          "aliases" :- Arr [
            Obj ["name" :- alb.@"dnsName"; "zoneId" :- alb.@"zoneId";
                 "evaluateTargetHealth" :- Bool true]]]).

(** The body of [.map((validationOption, index) => new Record(...))]. *)
Definition certValidationRecord
    (validationOption : CertificateDomainValidationOption) (index : nat) : Decl :=
  within certificate
    (resource "awsClassic.route53.Record"
       (YOUR_DOMAIN +:+ "-cert-validation-record-" +:+ pretty index)
       (Obj ["type" :- Str (resourceRecordType validationOption);
             "ttl" :- Num 60;
             "zoneId" :- hostedZone.@"id";
             "name" :- Str (resourceRecordName validationOption);
             "records" :- Arr [Str (resourceRecordValue validationOption)]])).

(** The body of [.forEach((certValidationRecord, index) =>
    new CertificateValidation(...))]. *)
Definition certDnsValidation (certValidationRecord : Decl) (index : nat) : Decl :=
  within certificate
    (resource "awsClassic.acm.CertificateValidation"
       (YOUR_DOMAIN +:+ "-cert-dns-validation-" +:+ pretty index)
       (Obj ["certificateArn" :- certificate.@"arn";
             "validationRecordFqdns" :- Arr [certValidationRecord.@"fqdn"]])).

(** [certificate.domainValidationOptions.apply(validationOptions => ...)]:
    the declarations the callback makes once the certificate authority has
    returned [validationOptions]. *)
Definition certificateValidation
    (validationOptions : list CertificateDomainValidationOption) : list Decl :=
  let records :=
    imap (λ index validationOption, certValidationRecord validationOption index)
      (uniqWith validationOptions sameRecord) in
  records ++ imap (λ index certValidationRecord, certDnsValidation certValidationRecord index) records.

Definition todoListener : Decl :=
  resource "awsnative.elasticloadbalancingv2.Listener" "todo-listener"
    (Obj ["loadBalancerArn" :- alb.@"arn";
          "certificates" :- Arr [Obj ["certificateArn" :- certificate.@"arn"]];
          "port" :- Num 443;
          "protocol" :- Str "HTTPS";
          "defaultActions" :- Arr [
            Obj ["type" :- Str "forward"; "targetGroupArn" :- todoAppTg.@"arn"]]]).

Definition todoApiListenerRule : Decl :=
  resource "awsClassic.lb.ListenerRule" "api-rule"
    (Obj ["listenerArn" :- todoListener.@"listenerArn";
          "actions" :- Arr [
            Obj ["type" :- Str "forward"; "targetGroupArn" :- todoApiTg.@"arn"]];
          "conditions" :- Arr [
            Obj ["pathPattern" :- Obj ["values" :- Arr [Str "/api/*"]]]];
          "priority" :- Num 10]).

Definition ecrRepo : Decl :=
  resource "awsClassic.ecr.Repository" "abe-example-repo"
    (Obj ["imageTagMutability" :- Str "MUTABLE";
          "imageScanningConfiguration" :- Obj ["scanOnPush" :- Bool true]]).

Definition todoAppImage : Decl :=
  resource "awsx.ecr.Image" "todo-app-image"
    (Obj ["repositoryUrl" :- ecrRepo.@"repositoryUrl";
          "context" :- Str "./todo-app";
          "dockerfile" :- Str "./todo-app/Dockerfile";
          "platform" :- Str "linux/arm64"]).

Definition todoApiImage : Decl :=
  resource "awsx.ecr.Image" "todo-api-image"
    (Obj ["repositoryUrl" :- ecrRepo.@"repositoryUrl";
          "context" :- Str "./todo-api";
          "dockerfile" :- Str "./todo-api/Dockerfile";
          "platform" :- Str "linux/arm64"]).

Definition allowImageAccess : Decl :=
  resource "awsClassic.iam.Policy" "ecr-access-policy"
    (Obj ["policy" :- Obj [
            "Version" :- Str "2012-10-17";
            "Statement" :- Arr [
              Obj ["Effect" :- Str "Allow";
                   "Action" :- Arr [Str "ecr:GetDownloadUrlForLayer";
                                    Str "ecr:BatchGetImage";
                                    Str "ecr:BatchCheckLayerAvailability"];
                   "Resource" :- ecrRepo.@"arn"];
              Obj ["Effect" :- Str "Allow";
                   "Action" :- Arr [Str "ecr:GetAuthorizationToken"];
                   "Resource" :- Str "*"]]]]).

Definition taskExecutionRolePolicyAttachment : Decl :=
  resource "awsClassic.iam.RolePolicyAttachment" "task-execution-role-policy-attachment"
    (Obj ["role" :- ecsTaskInitializationRole.@"name";
          "policyArn" :- allowImageAccess.@"arn"]).

Definition logGroup : Decl :=
  resource "awsClassic.cloudwatch.LogGroup" "website-task-logs"
    (Obj ["retentionInDays" :- Num 14]).

(** [awsClassic.getRegion({}, { async: true })], called in place by both task
    definitions with the same arguments. *)
Definition getRegion : Decl :=
  invoke "awsClassic.getRegion" "getRegion" (Obj []).

Definition logConfiguration : Value :=
  Obj ["logDriver" :- Str "awslogs";
       "options" :- Obj ["awslogs-group" :- logGroup.@"name";
                         "awslogs-region" :- getRegion.@"name";
                         "awslogs-stream-prefix" :- Str "ecs"]].

Definition portMappings : Value :=
  Arr [Obj ["containerPort" :- Num 80; "hostPort" :- Num 80; "protocol" :- Str "tcp"]].

Definition todoAppTask : Decl :=
  resource "awsnative.ecs.TaskDefinition" "todo-app-task"
    (Obj ["family" :- Str "todo-app-task";
          "cpu" :- Str "256";
          "memory" :- Str "512";
          "networkMode" :- Str "awsvpc";
          "requiresCompatibilities" :- Arr [Str "FARGATE"];
          "executionRoleArn" :- ecsTaskInitializationRole.@"arn";
          "containerDefinitions" :- Arr [
            Obj ["name" :- Str "todo-app";
                 "image" :- todoAppImage.@"imageUri";
                 "portMappings" :- portMappings;
                 "logConfiguration" :- logConfiguration]];
          "runtimePlatform" :- Obj ["cpuArchitecture" :- Str "ARM64"]]).

Definition todoTable : Decl :=
  resource "awsClassic.dynamodb.Table" "abe-todos"
    (Obj ["billingMode" :- Str "PAY_PER_REQUEST";
          "hashKey" :- Str "id";
          "attributes" :- Arr [Obj ["name" :- Str "id"; "type" :- Str "S"]]]).

Definition allowTableAccess : Decl :=
  resource "awsClassic.iam.Policy" "allow-table-access"
    (Obj ["policy" :- Obj [
            "Version" :- Str "2012-10-17";
            "Statement" :- Arr [
              Obj ["Effect" :- Str "Allow"; "Action" :- Str "*";
                   "Resource" :- todoTable.@"arn"]]]]).

Definition ecsTaskRole : Decl :=
  resource "awsClassic.iam.Role" "task-role"
    (Obj ["assumeRolePolicy" :- assumeRolePolicy]).

Definition allowTableAccessPolicyAttachment : Decl :=
  resource "awsClassic.iam.RolePolicyAttachment" "allow-table-access-policy-attachment"
    (Obj ["role" :- ecsTaskRole.@"name";
          "policyArn" :- allowTableAccess.@"arn"]).

Definition todoApiTask : Decl :=
  resource "awsnative.ecs.TaskDefinition" "todo-api-task"
    (Obj ["family" :- Str "todo-api-task";
          "cpu" :- Str "256";
          "memory" :- Str "512";
          "networkMode" :- Str "awsvpc";
          "requiresCompatibilities" :- Arr [Str "FARGATE"];
          "executionRoleArn" :- ecsTaskInitializationRole.@"arn";
          "taskRoleArn" :- ecsTaskRole.@"arn";
          "containerDefinitions" :- Arr [
            Obj ["name" :- Str "todo-api";
                 "image" :- todoApiImage.@"imageUri";
                 "portMappings" :- portMappings;
                 "environment" :- Arr [
                   Obj ["name" :- Str "AWS_REGION"; "value" :- Str "eu-central-1"];
                   Obj ["name" :- Str "DYNAMODB_TABLE_NAME"; "value" :- todoTable.@"name"];
                   Obj ["name" :- Str "PORT"; "value" :- Str "80"]];
                 "logConfiguration" :- logConfiguration]];
          "runtimePlatform" :- Obj ["cpuArchitecture" :- Str "ARM64"]]).

Definition networkConfiguration : Value :=
  Obj ["awsvpcConfiguration" :- Obj [
         "assignPublicIp" :- Str "ENABLED";
         "subnets" :- defaultVpcSubnets.@"ids";
         "securityGroups" :- Arr [group.@"id"]]].

Definition todoAppService : Decl :=
  dependsOn [httpsRedirectListener; todoListener]
    (resource "awsnative.ecs.Service" "todo-app-service"
       (Obj ["cluster" :- cluster.@"arn";
             "desiredCount" :- Num 1;
             "launchType" :- Str "FARGATE";
             "taskDefinition" :- todoAppTask.@"taskDefinitionArn";
             "networkConfiguration" :- networkConfiguration;
             "loadBalancers" :- Arr [
               Obj ["targetGroupArn" :- todoAppTg.@"arn";
                    "containerName" :- Str "todo-app";
                    "containerPort" :- Num 80]]])).

Definition todoApiService : Decl :=
  dependsOn [httpsRedirectListener; todoListener; todoApiListenerRule]
    (resource "awsnative.ecs.Service" "todo-api-service"
       (Obj ["cluster" :- cluster.@"arn";
             "desiredCount" :- Num 1;
             "launchType" :- Str "FARGATE";
             "taskDefinition" :- todoApiTask.@"taskDefinitionArn";
             "networkConfiguration" :- networkConfiguration;
             "loadBalancers" :- Arr [
               Obj ["targetGroupArn" :- todoApiTg.@"arn";
                    "containerName" :- Str "todo-api";
                    "containerPort" :- Num 80]]])).

Definition scaledownConfiguration : Value :=
  Obj ["adjustmentType" :- Str "ChangeInCapacity";
       "cooldown" :- Num 60;
       "metricAggregationType" :- Str "Maximum";
       "stepAdjustments" :- Arr [
         Obj ["metricIntervalUpperBound" :- Str "0"; "scalingAdjustment" :- Num (-1)]]].

Definition todoAppScalingTarget : Decl :=
  resource "awsClassic.appautoscaling.Target" "todo-app-service-scaling-target"
    (Obj ["maxCapacity" :- Num 10;
          "minCapacity" :- Num 1;
          "resourceId" :- Interp [Str "service/"; cluster.@"clusterName"; Str "/";
                                  todoAppService.@"serviceName"];
          "scalableDimension" :- Str "ecs:service:DesiredCount";
          "serviceNamespace" :- Str "ecs"]).

Definition todoAppScalingPolicy : Decl :=
  resource "awsClassic.appautoscaling.Policy" "todo-app-scaledown-policy"
    (Obj ["policyType" :- Str "StepScaling";
          "resourceId" :- todoAppScalingTarget.@"resourceId";
          "scalableDimension" :- todoAppScalingTarget.@"scalableDimension";
          "serviceNamespace" :- todoAppScalingTarget.@"serviceNamespace";
          "stepScalingPolicyConfiguration" :- scaledownConfiguration]).

Definition todoApiScalingTarget : Decl :=
  resource "awsClassic.appautoscaling.Target" "todo-api-service-scaling-target"
    (Obj ["maxCapacity" :- Num 10;
          "minCapacity" :- Num 1;
          "resourceId" :- Interp [Str "service/"; cluster.@"clusterName"; Str "/";
                                  todoApiService.@"serviceName"];
          "scalableDimension" :- Str "ecs:service:DesiredCount";
          "serviceNamespace" :- Str "ecs"]).

Definition todoApiScalingPolicy : Decl :=
  resource "awsClassic.appautoscaling.Policy" "todo-api-scaledown-policy"
    (Obj ["policyType" :- Str "StepScaling";
          "resourceId" :- todoApiScalingTarget.@"resourceId";
          "scalableDimension" :- todoApiScalingTarget.@"scalableDimension";
          "serviceNamespace" :- todoApiScalingTarget.@"serviceNamespace";
          "stepScalingPolicyConfiguration" :- scaledownConfiguration]).

(** The top-level declarations, in source order. *)
Definition declarations : list Decl :=
  [ defaultVpc; defaultVpcSubnets; group; alb; todoAppTg; todoApiTg;
    ecsTaskInitializationRole; rpa; cluster; httpsRedirectListener;
    certificate; hostedZone; hostedZoneAlbRecord;
    todoListener; todoApiListenerRule;
    ecrRepo; todoAppImage; todoApiImage; allowImageAccess;
    taskExecutionRolePolicyAttachment; logGroup; getRegion; todoAppTask;
    todoTable; allowTableAccess; ecsTaskRole; allowTableAccessPolicyAttachment;
    todoApiTask; todoAppService; todoApiService;
    todoAppScalingTarget; todoAppScalingPolicy;
    todoApiScalingTarget; todoApiScalingPolicy ].

(** The whole program of a run in which the certificate authority answers
    with [validationOptions]: the callback's declarations are made after the
    top-level ones, when the certificate's output has resolved. *)
Definition program (validationOptions : list CertificateDomainValidationOption) : list Decl :=
  declarations ++ certificateValidation validationOptions.

End MultipleServices.

(** ** The single-service stage, [03-custom-image.ts] *)

Module CustomImage.

Definition defaultVpc : Decl :=
  invoke "awsClassic.ec2.getVpcOutput" "defaultVpc" (Obj ["default" :- Bool true]).

Definition defaultVpcSubnets : Decl :=
  invoke "awsClassic.ec2.getSubnetsOutput" "defaultVpcSubnets"
    (Obj ["filters" :- Arr [Obj ["name" :- Str "vpc-id"; "values" :- Arr [defaultVpc.@"id"]]]]).

Definition group : Decl :=
  resource "awsClassic.ec2.SecurityGroup" "web-secgrp"
    (Obj ["vpcId" :- defaultVpc.@"id";
          "description" :- Str "Enable HTTP & HTTPs access";
          "ingress" :- Arr [
            Obj ["protocol" :- Str "tcp"; "fromPort" :- Num 80; "toPort" :- Num 80;
                 "cidrBlocks" :- Arr [Str "0.0.0.0/0"]];
            Obj ["protocol" :- Str "tcp"; "fromPort" :- Num 443; "toPort" :- Num 443;
                 "cidrBlocks" :- Arr [Str "0.0.0.0/0"]]];
          "egress" :- Arr [
            Obj ["protocol" :- Str "-1"; "fromPort" :- Num 0; "toPort" :- Num 0;
                 "cidrBlocks" :- Arr [Str "0.0.0.0/0"]]]]).

Definition alb : Decl :=
  resource "awsClassic.lb.LoadBalancer" "app-lb"
    (Obj ["securityGroups" :- Arr [group.@"id"];
          "subnets" :- defaultVpcSubnets.@"ids"]).

Definition atg : Decl :=
  resource "awsClassic.lb.TargetGroup" "app-tg"
    (Obj ["port" :- Num 80; "protocol" :- Str "HTTP"; "targetType" :- Str "ip";
          "vpcId" :- defaultVpc.@"id"]).

Definition role : Decl :=
  resource "awsClassic.iam.Role" "task-exec-role"
    (Obj ["assumeRolePolicy" :- Obj [
            "Version" :- Str "2008-10-17";
            "Statement" :- Arr [
              Obj ["Sid" :- Str ""; "Effect" :- Str "Allow";
                   "Principal" :- Obj ["Service" :- Str "ecs-tasks.amazonaws.com"];
                   "Action" :- Str "sts:AssumeRole"]]]]).

Definition rpa : Decl :=
  resource "awsClassic.iam.RolePolicyAttachment" "task-exec-policy"
    (Obj ["role" :- role.@"name";
          "policyArn" :- Str "arn:aws:iam::aws:policy/service-role/AmazonECSTaskExecutionRolePolicy"]).

Definition cluster : Decl :=
  resource "awsnative.ecs.Cluster" "cluster"
    (Obj ["clusterName" :- Str "aws-by-example-cluster"]).

Definition wl : Decl :=
  resource "awsnative.elasticloadbalancingv2.Listener" "web"
    (Obj ["loadBalancerArn" :- alb.@"arn";
          "port" :- Num 80;
          "protocol" :- Str "HTTP";
          "defaultActions" :- Arr [
            Obj ["type" :- Str "redirect";
                 "redirectConfig" :- Obj ["statusCode" :- Str "HTTP_301";
                                          "host" :- Str "#{host}";
                                          "path" :- Str "/#{path}";
                                          "protocol" :- Str "HTTPS"]]]]).

Definition YOUR_DOMAIN : string := "uncld.net".

Definition certificate : Decl :=
  resource "awsClassic.acm.Certificate" "alb-certificate"
    (Obj ["domainName" :- Str YOUR_DOMAIN; "validationMethod" :- Str "DNS"]).

Definition hostedZone : Decl :=
  invoke "awsClassic.route53.getZone" "hostedZone"
    (Obj ["name" :- Str YOUR_DOMAIN; "privateZone" :- Bool false]).

Definition hostedZoneAlbRecord : Decl :=
  resource "awsClassic.route53.Record" "lb-alias-record"
    (Obj ["name" :- Str YOUR_DOMAIN;
          "zoneId" :- hostedZone.@"id";
          "type" :- Str "A";
          "aliases" :- Arr [
            Obj ["name" :- alb.@"dnsName"; "zoneId" :- alb.@"zoneId";
                 "evaluateTargetHealth" :- Bool true]]]).

Definition certValidationRecord
    (validationOption : CertificateDomainValidationOption) (index : nat) : Decl :=
  within certificate
    (resource "awsClassic.route53.Record"
       (YOUR_DOMAIN +:+ "-cert-validation-record-" +:+ pretty index)
       (Obj ["type" :- Str (resourceRecordType validationOption);
             "ttl" :- Num 60;
             "zoneId" :- hostedZone.@"id";
             "name" :- Str (resourceRecordName validationOption);
             "records" :- Arr [Str (resourceRecordValue validationOption)]])).

Definition certDnsValidation (certValidationRecord : Decl) (index : nat) : Decl :=
  within certificate
    (resource "awsClassic.acm.CertificateValidation"
       (YOUR_DOMAIN +:+ "-cert-dns-validation-" +:+ pretty index)
       (Obj ["certificateArn" :- certificate.@"arn";
             "validationRecordFqdns" :- Arr [certValidationRecord.@"fqdn"]])).

Definition certificateValidation
    (validationOptions : list CertificateDomainValidationOption) : list Decl :=
  let records :=
    imap (λ index validationOption, certValidationRecord validationOption index)
      (uniqWith validationOptions sameRecord) in
  records ++ imap (λ index certValidationRecord, certDnsValidation certValidationRecord index) records.

Definition secureWebListener : Decl :=
  resource "awsnative.elasticloadbalancingv2.Listener" "https-web"
    (Obj ["loadBalancerArn" :- alb.@"arn";
          "certificates" :- Arr [Obj ["certificateArn" :- certificate.@"arn"]];
          "port" :- Num 443;
          "protocol" :- Str "HTTPS";
          "defaultActions" :- Arr [
            Obj ["type" :- Str "forward"; "targetGroupArn" :- atg.@"arn"]]]).

Definition ecrRepo : Decl :=
  resource "awsClassic.ecr.Repository" "ecr-repo"
    (Obj ["name" :- Str "abe-example-ecr-repo";
          "imageTagMutability" :- Str "MUTABLE";
          "imageScanningConfiguration" :- Obj ["scanOnPush" :- Bool true]]).

Definition websiteImage : Decl :=
  resource "awsx.ecr.Image" "website-image"
    (Obj ["repositoryUrl" :- ecrRepo.@"repositoryUrl";
          "context" :- Str "./simple-website";
          "dockerfile" :- Str "./simple-website/Dockerfile";
          "platform" :- Str "linux/arm64"]).

Definition allowImageAccess : Decl :=
  resource "awsClassic.iam.Policy" "ecr-access-policy"
    (Obj ["policy" :- Obj [
            "Version" :- Str "2012-10-17";
            "Statement" :- Arr [
              Obj ["Effect" :- Str "Allow";
                   "Action" :- Arr [Str "ecr:GetDownloadUrlForLayer";
                                    Str "ecr:BatchGetImage";
                                    Str "ecr:BatchCheckLayerAvailability"];
                   "Resource" :- ecrRepo.@"arn"];
              Obj ["Effect" :- Str "Allow";
                   "Action" :- Arr [Str "ecr:GetAuthorizationToken"];
                   "Resource" :- Str "*"]]]]).

Definition taskExecutionRolePolicyAttachment : Decl :=
  resource "awsClassic.iam.RolePolicyAttachment" "task-execution-role-policy-attachment"
    (Obj ["role" :- role.@"name";
          "policyArn" :- allowImageAccess.@"arn"]).

Definition logGroup : Decl :=
  resource "awsClassic.cloudwatch.LogGroup" "website-task-logs"
    (Obj ["retentionInDays" :- Num 14]).

Definition getRegion : Decl :=
  invoke "awsClassic.getRegion" "getRegion" (Obj []).

Definition taskDefinition : Decl :=
  resource "awsnative.ecs.TaskDefinition" "website-task"
    (Obj ["family" :- Str "abe-example-website";
          "cpu" :- Str "256";
          "memory" :- Str "512";
          "networkMode" :- Str "awsvpc";
          "requiresCompatibilities" :- Arr [Str "FARGATE"];
          "executionRoleArn" :- role.@"arn";
          "containerDefinitions" :- Arr [
            Obj ["name" :- Str "custom-website";
                 "image" :- websiteImage.@"imageUri";
                 "portMappings" :- Arr [
                   Obj ["containerPort" :- Num 80; "hostPort" :- Num 80;
                        "protocol" :- Str "tcp"]];
                 "logConfiguration" :- Obj [
                   "logDriver" :- Str "awslogs";
                   "options" :- Obj ["awslogs-group" :- logGroup.@"name";
                                     "awslogs-region" :- getRegion.@"name";
                                     "awslogs-stream-prefix" :- Str "ecs"]]]];
          "runtimePlatform" :- Obj ["cpuArchitecture" :- Str "ARM64"]]).

Definition service : Decl :=
  dependsOn [wl; secureWebListener]
    (resource "awsnative.ecs.Service" "website-service"
       (Obj ["serviceName" :- Str "abe-example-website";
             "cluster" :- cluster.@"arn";
             "desiredCount" :- Num 1;
             "launchType" :- Str "FARGATE";
             "taskDefinition" :- taskDefinition.@"taskDefinitionArn";
             "networkConfiguration" :- Obj [
               "awsvpcConfiguration" :- Obj [
                 "assignPublicIp" :- Str "ENABLED";
                 "subnets" :- defaultVpcSubnets.@"ids";
                 "securityGroups" :- Arr [group.@"id"]]];
             "loadBalancers" :- Arr [
               Obj ["targetGroupArn" :- atg.@"arn";
                    "containerName" :- Str "custom-website";
                    "containerPort" :- Num 80]]])).

Definition declarations : list Decl :=
  [ defaultVpc; defaultVpcSubnets; group; alb; atg; role; rpa; cluster; wl;
    certificate; hostedZone; hostedZoneAlbRecord; secureWebListener;
    ecrRepo; websiteImage; allowImageAccess; taskExecutionRolePolicyAttachment;
    logGroup; getRegion; taskDefinition; service ].

Definition program (validationOptions : list CertificateDomainValidationOption) : list Decl :=
  declarations ++ certificateValidation validationOptions.

End CustomImage.

(** ** Reading a program *)

Definition hasType (typ : string) (d : Decl) : bool := String.eqb (d_typ d) typ.

Definition listeners (P : list Decl) : list Decl :=
  List.filter (hasType "awsnative.elasticloadbalancingv2.Listener") P.

Definition listenerRules (P : list Decl) : list Decl :=
  List.filter (hasType "awsClassic.lb.ListenerRule") P.

Definition services (P : list Decl) : list Decl :=
  List.filter (hasType "awsnative.ecs.Service") P.

Definition scalingTargets (P : list Decl) : list Decl :=
  List.filter (hasType "awsClassic.appautoscaling.Target") P.

Definition scalingPolicies (P : list Decl) : list Decl :=
  List.filter (hasType "awsClassic.appautoscaling.Policy") P.

Definition dnsRecords (P : list Decl) : list Decl :=
  List.filter (hasType "awsClassic.route53.Record") P.

Definition validationWaits (P : list Decl) : list Decl :=
  List.filter (hasType "awsClassic.acm.CertificateValidation") P.


Definition fieldOr (k : string) (v : Value) : Value :=
  default (Obj []) (field k v).

(** The target groups a list of actions forwards to. *)
Definition forwardTargets (actions : Value) : list string :=
  concat ((λ a, match field "type" a, field "targetGroupArn" a with
                | Some (Str "forward"), Some (Out tg _) => [tg]
                | _, _ => []
                end) <$> items actions).


Definition ruleTargets (rule : Decl) : list string :=
  forwardTargets (fieldOr "actions" (d_args rule)).

(** The target groups a service registers its containers with. *)
Definition serviceTargets (svc : Decl) : list string :=
  concat ((λ lb, match field "targetGroupArn" lb with
                 | Some (Out tg _) => [tg]
                 | _ => []
                 end) <$> items (fieldOr "loadBalancers" (d_args svc))).

(** The path patterns of a rule's conditions. *)
Definition pathPatterns (rule : Decl) : list string :=
  concat ((λ c, concat ((λ v, match v with Str s => [s] | _ => [] end)
                          <$> items (fieldOr "values" (fieldOr "pathPattern" c))))
            <$> items (fieldOr "conditions" (d_args rule))).

Definition declaredPatterns (P : list Decl) : list string :=
  concat (pathPatterns <$> listenerRules P).

(** A rule routes to a service when it forwards to one of its target groups. *)
Definition routesTo (rule svc : Decl) : bool :=
  existsb (λ tg, bool_decide (tg ∈ serviceTargets svc)) (ruleTargets rule).

Definition isSecure (listener : Decl) : bool :=
  match field "port" (d_args listener), field "protocol" (d_args listener) with
  | Some (Num 443), Some (Str "HTTPS") => true
  | _, _ => false
  end.

(** The record a validation wait watches, and the record data of a DNS
    record declaration. *)
Definition watchedRecords (wait : Decl) : list string :=
  concat ((λ v, match v with Out r "fqdn" => [r] | _ => [] end)
            <$> items (fieldOr "validationRecordFqdns" (d_args wait))).

Definition recordTriple (rec : Decl) : option (string * string * string) :=
  match field "type" (d_args rec), field "name" (d_args rec), field "records" (d_args rec) with
  | Some (Str t), Some (Str n), Some (Arr [Str v]) => Some (t, n, v)
  | _, _, _ => None
  end.

(** ** The provisioning engine's scheduling discipline *)

(** What a run has done so far: the nodes that resolved, and the nodes
    whose request was refused by a provider. *)
Record Run := {
  created : list string;
  failed : list string;
}.

Definition start : Run := {| created := []; failed := [] |}.

Definition attempted (s : Run) : list string := created s ++ failed s.

(** Modelled from the spec: the engine that submits the declarations to the
    providers is not part of the repository.  Section 5 of the
    specification gives its discipline: a dependent resource blocks until
    its prerequisites report ready, independent resources go in any order.
    So a declaration may be submitted once, and only when everything it
    reads has resolved. *)
Definition ready (P : list Decl) (s : Run) (d : Decl) : Prop :=
  d ∈ P ∧ (d_name d ∉ attempted s) ∧ ∀ r, r ∈ deps d → r ∈ created s.

(** Modelled from the spec: one move of the engine.  It submits a ready
    declaration, and the provider accepts the request or refuses it; what
    waits for a refused node is never submitted (section 7: dependent
    resources are not attempted). *)
Inductive step (P : list Decl) : Run → Run → Prop :=
| step_create d s :
    ready P s d →
    step P s {| created := d_name d :: created s; failed := failed s |}
| step_fail d s :
    ready P s d →
    step P s {| created := created s; failed := d_name d :: failed s |}.

Definition reachable (P : list Decl) (s : Run) : Prop := rtc (step P) start s.

(** Nothing more can be submitted. *)
Definition quiescent (P : list Decl) (s : Run) : Prop := ∀ d, ¬ ready P s d.

(** What the engine tells the operator at the end of a run. *)
Inductive Report :=
| Succeeded
| FailedWith (nodes : list string).

Definition report (s : Run) : Report :=
  match failed s with
  | [] => Succeeded
  | nodes => FailedWith nodes
  end.

(** An executable schedule: the engine's choices, replayed in order. *)
Inductive Event :=
| Create (n : string)
| Fail (n : string).

Definition eventNode (ev : Event) : string :=
  match ev with Create n | Fail n => n end.

Definition record (ev : Event) (s : Run) : Run :=
  match ev with
  | Create n => {| created := n :: created s; failed := failed s |}
  | Fail n => {| created := created s; failed := n :: failed s |}
  end.

Definition declared (P : list Decl) (n : string) : option Decl :=
  List.find (λ d, String.eqb (d_name d) n) P.

Definition readyb (s : Run) (d : Decl) : bool :=
  bool_decide (d_name d ∉ attempted s)
  && forallb (λ r, bool_decide (r ∈ created s)) (deps d).

Fixpoint play (P : list Decl) (evs : list Event) (s : Run) : option Run :=
  match evs with
  | [] => Some s
  | ev :: rest =>
      match declared P (eventNode ev) with
      | Some d => if readyb s d then play P rest (record ev s) else None
      | None => None
      end
  end.

(** Declarations in source order read only what was declared before them. *)
Fixpoint wellOrdered_from (seen : list string) (P : list Decl) : bool :=
  match P with
  | [] => true
  | d :: rest =>
      bool_decide (d_name d ∉ seen)
      && forallb (λ r, bool_decide (r ∈ seen)) (deps d)
      && wellOrdered_from (d_name d :: seen) rest
  end.

Definition wellOrdered (P : list Decl) : bool := wellOrdered_from [] P.

(** ** The todo API's request router, [todo-api/server.js] *)

Inductive Json :=
| JUndefined
| JBool (b : bool)
| JNum (n : Z)
| JStr (s : string)
| JArr (items : list Json)
| JObj (fields : list (string * Json)).

(** [o.k] on a parsed body or a table answer. *)
Definition prop (k : string) (o : Json) : Json :=
  match o with
  | JObj fields =>
      match List.find (λ kv, String.eqb kv.1 k) fields with
      | Some kv => kv.2
      | None => JUndefined
      end
  | _ => JUndefined
  end.

Inductive Method := GET | HEAD | POST | PUT | PATCH | DELETE | OPTIONS.

#[global] Instance Method_eq_dec : EqDecision Method.
Proof. solve_decision. Defined.

Record Request := {
  method : Method;
  path : string;
}.

Record Response := {
  status : Z;
  body : Json;
}.

(** [res.status(code).json(o)] *)
Definition json (code : Z) (o : Json) : Response := {| status := code; body := o |}.

(** Routing is the work of the Express library.  [segments], [matchPath],
    [dispatch] and [mounted] give it as far as the four routes of this
    server use it: a path is compared segment by segment, a trailing slash
    adds no segment, and letter case is not folded.  This is the library's
    routing on the requests [plainRequest] below describes; beyond them
    the library also folds the case of letters, decodes the escapes of a
    parameter (answering 400 on a malformed one), tells empty segments
    apart and answers OPTIONS requests itself, none of which is given
    here. *)

(** The segments of a URL path. *)
Fixpoint segments_from (s : string) (cur : string) : list string :=
  match s with
  | EmptyString => if decide (cur = "") then [] else [cur]
  | String c rest =>
      if Ascii.eqb c "/"%char
      then (if decide (cur = "") then [] else [cur]) ++ segments_from rest ""
      else segments_from rest (cur +:+ String c "")
  end.

Definition segments (s : string) : list string := segments_from s "".

(** A route path: literal segments and [:name] parameters. *)
Inductive Segment :=
| Lit (s : string)
| Param (name : string).

Fixpoint matchPath (pattern : list Segment) (p : list string) : option (list (string * string)) :=
  match pattern, p with
  | [], [] => Some []
  | Lit s :: pattern', x :: p' =>
      if String.eqb s x then matchPath pattern' p' else None
  | Param n :: pattern', x :: p' =>
      cons (n, x) <$> matchPath pattern' p'
  | _, _ => None
  end.

(** [router.get] also answers HEAD requests. *)
Definition methodMatches (route req : Method) : bool :=
  bool_decide (route = req) || (bool_decide (route = GET) && bool_decide (req = HEAD)).

Inductive Command :=
| ScanCommand (params : Json)
| PutCommand (params : Json)
| UpdateCommand (params : Json).

Section Server.

(** The collaborators of the server: the two library middlewares, the table
    client, the clock and the environment. *)
(** [bodyParser.json()] answers the request itself on a body it cannot
    parse, and otherwise leaves the parsed [req.body]. *)
Variable bodyParser_json : Request → Response + Json.
(** [cors()] answers pre-flight requests itself and passes the others on. *)
Variable cors : Request → option Response.
(** [ddbDocClient.send(command)]: [None] when the promise rejects. *)
Variable send : Command → option Json.
(** [Date.now()] *)
Variable now : Z.
(** [process.env.DYNAMODB_TABLE_NAME] *)
Variable TABLE_NAME : Json.

(** What a handler sees: [req.params] and [req.body]. *)
Record Context := {
  params : list (string * string);
  reqBody : Json;
}.

Definition param (k : string) (ctx : Context) : Json :=
  match List.find (λ kv, String.eqb kv.1 k) (params ctx) with
  | Some kv => JStr kv.2
  | None => JUndefined
  end.

(** [apiRouter.get('/todos', ...)] *)
Definition getTodos (ctx : Context) : Response :=
  let params := JObj ["TableName" :- TABLE_NAME] in
  match send (ScanCommand params) with
  | Some data => json 200 (prop "Items" data)
  | None => json 500 (JObj ["error" :- JStr "Could not fetch todos"])
  end.

(** [apiRouter.post('/todos', ...)] *)
Definition postTodo (ctx : Context) : Response :=
  let todo := JObj ["id" :- JStr (pretty now);
                    "text" :- prop "text" (reqBody ctx);
                    "completed" :- JBool false] in
  let params := JObj ["TableName" :- TABLE_NAME; "Item" :- todo] in
  match send (PutCommand params) with
  | Some _ => json 201 todo
  | None => json 500 (JObj ["error" :- JStr "Could not add todo"])
  end.

(** [apiRouter.patch('/todos/:id', ...)] *)
Definition patchTodo (ctx : Context) : Response :=
  let id := param "id" ctx in
  let completed := prop "completed" (reqBody ctx) in
  let params :=
    JObj ["TableName" :- TABLE_NAME;
          "Key" :- JObj ["id" :- id];
          "UpdateExpression" :- JStr "set completed = :completed";
          "ExpressionAttributeValues" :- JObj [":completed" :- completed];
          "ReturnValues" :- JStr "ALL_NEW"] in
  match send (UpdateCommand params) with
  | Some data => json 200 (prop "Attributes" data)
  | None => json 500 (JObj ["error" :- JStr "Could not update todo"])
  end.

(** [apiRouter.get('/', (req, res) => { res.status(200).json({ status: 'ok' }) })] *)
Definition getHealth (ctx : Context) : Response :=
  json 200 (JObj ["status" :- JStr "ok"]).

Record Route := {
  routeMethod : Method;
  routePath : list Segment;
  handler : Context → Response;
}.

(** The routes of [apiRouter], in registration order. *)
Definition apiRouter : list Route :=
  [ {| routeMethod := GET; routePath := [Lit "todos"]; handler := getTodos |};
    {| routeMethod := POST; routePath := [Lit "todos"]; handler := postTodo |};
    {| routeMethod := PATCH; routePath := [Lit "todos"; Param "id"]; handler := patchTodo |};
    {| routeMethod := GET; routePath := []; handler := getHealth |} ].

(** The first route that matches answers; [None] passes the request on. *)
Fixpoint dispatch (routes : list Route) (m : Method) (p : list string) (reqBody : Json)
    : option Response :=
  match routes with
  | [] => None
  | r :: rest =>
      if methodMatches (routeMethod r) m
      then match matchPath (routePath r) p with
           | Some ps => Some (handler r {| params := ps; reqBody := reqBody |})
           | None => dispatch rest m p reqBody
           end
      else dispatch rest m p reqBody
  end.

(** [app.use(base, router)]: the router sees the path below [base]. *)
Definition mounted (base : string) (router : list Route) (req : Request) (reqBody : Json)
    : option Response :=
  match segments (path req) with
  | first :: below =>
      if String.eqb first base then dispatch router (method req) below reqBody else None
  | [] => None
  end.

(** The 404 handler; [express.static('.')] is registered after it and is
    never reached. *)
Definition notFound (req : Request) : Response :=
  json 404 (JObj ["error" :- JStr "Not Found"]).

(** The middleware stack of [app], in [app.use] order. *)
Definition app (req : Request) : Response :=
  match bodyParser_json req with
  | inl refused => refused
  | inr reqBody =>
      match cors req with
      | Some answered => answered
      | None =>
          match mounted "api" apiRouter req reqBody with
          | Some res => res
          | None => notFound req
          end
      end
  end.

End Server.

(** The health-check request a load balancer sends for a target group:
    [GET] on the configured path. *)
Definition healthCheckRequest (targetGroup : Decl) : option Request :=
  match field "path" (fieldOr "healthCheck" (d_args targetGroup)) with
  | Some (Str p) => Some {| method := GET; path := p |}
  | _ => None
  end.

(** ** Auxiliary definitions for the statements *)

(** *** First occurrences *)

(** The test [uniqWith] applies to an element [x] that follows [seen]:
    no earlier element compares equal to it, and it compares equal to
    itself. *)
Definition unseen {A} (fn : A → A → bool) (seen : list A) (x : A) : bool :=
  negb (existsb (fn x) seen) && fn x x.

(** [uniqWith] as one pass that remembers what it has walked over. *)
Fixpoint dedup_from {A} (fn : A → A → bool) (seen l : list A) : list A :=
  match l with
  | [] => []
  | x :: rest =>
      if unseen fn seen x then x :: dedup_from fn (seen ++ [x]) rest
      else dedup_from fn (seen ++ [x]) rest
  end.

(** The positions that pass keeps. *)
Fixpoint idx_from {A} (fn : A → A → bool) (seen l : list A) : list nat :=
  match l with
  | [] => []
  | x :: rest =>
      if unseen fn seen x then length seen :: idx_from fn (seen ++ [x]) rest
      else idx_from fn (seen ++ [x]) rest
  end.

(** Position [i] holds the first challenge with its triple. *)
Definition isFirstOccurrence (arr : list CertificateDomainValidationOption) (i : nat) : Prop :=
  ∃ x, arr !! i = Some x ∧
       ∀ j y, (j < i)%nat → arr !! j = Some y → triple y ≠ triple x.

(** No two positions hold challenges that compare equal. *)
Definition pairwiseDistinct (arr : list CertificateDomainValidationOption) : Prop :=
  ∀ i j x y, arr !! i = Some x → arr !! j = Some y → i ≠ j → sameRecord x y = false.

(** *** The certificate callback *)

(** The records the callback declares, before the waits. *)
Definition validationRecords
    (validationOptions : list CertificateDomainValidationOption) : list Decl :=
  imap (λ index validationOption,
          MultipleServices.certValidationRecord validationOption index)
    (uniqWith validationOptions sameRecord).

(** The names the callback gives its declarations all start alike. *)
Definition callbackName (n : string) : bool := String.prefix "uncld.net-cert-" n.

(** A stage program: top-level declarations followed by the callback's. *)
Definition staged (decls : list Decl)
    (vos : list CertificateDomainValidationOption) : list Decl :=
  decls ++ MultipleServices.certificateValidation vos.

(** The stage programs of the repository. *)
Definition stageProgram (P : list Decl) : Prop :=
  (∃ vos, P = MultipleServices.program vos) ∨ (∃ vos, P = CustomImage.program vos).

(** Every listener, and every rule routing to the service, is among what
    the service waits for. *)
Definition waitsForRouting (decls : list Decl) : bool :=
  forallb (λ svc,
    forallb (λ d, bool_decide (d_name d ∈ deps svc))
      (listeners decls ++ List.filter (λ r, routesTo r svc) (listenerRules decls)))
    (services decls).

(** *** Autoscaling *)

(** A scaling target scales the service its [resourceId] names; a policy
    belongs to the target whose [resourceId] it reads. *)
Definition scalesService (target svc : Decl) : bool :=
  bool_decide (d_name svc ∈ outs (fieldOr "resourceId" (d_args target))).

Definition policyOf (policy target : Decl) : bool :=
  bool_decide (d_name target ∈ outs (fieldOr "resourceId" (d_args policy))).

Definition stepConfiguration (policy : Decl) : Value :=
  fieldOr "stepScalingPolicyConfiguration" (d_args policy).

Definition stepAdjustments (policy : Decl) : list Value :=
  items (fieldOr "stepAdjustments" (stepConfiguration policy)).

Definition scalingAdjustment (step : Value) : option Z :=
  match field "scalingAdjustment" step with
  | Some (Num n) => Some n
  | _ => None
  end.

(** *** Runs *)

(** The run that submits the declarations in source order, every request
    being accepted. *)
Definition inOrder (P : list Decl) : Run :=
  {| created := reverse (d_name <$> P); failed := [] |}.

Definition quiescentb (P : list Decl) (s : Run) : bool :=
  forallb (λ d, negb (readyb s d)) P.

(** A challenge as the certificate authority returns it. *)
Definition sampleOption : CertificateDomainValidationOption :=
  ch "uncld.net" "_3f1c.uncld.net." "CNAME" "_9a7e.acm-validations.aws.".

(** A schedule that requests the secure listener as soon as the certificate
    request has returned. *)
Definition listenerFirst : list Event :=
  [Create "defaultVpc"; Create "defaultVpcSubnets"; Create "web-secgrp";
   Create "app-lb"; Create "todo-app-tg"; Create "alb-certificate";
   Create "todo-listener"].

(** The run in which the certificate request is refused and everything
    that does not wait for it is created. *)
Definition degraded : list Event :=
  [Create "defaultVpc"; Create "defaultVpcSubnets"; Create "web-secgrp"; Create "app-lb";
   Create "todo-app-tg"; Create "todo-api-tg"; Create "task-init-role";
   Create "task-exec-policy"; Create "aws-by-example"; Create "https-redirect-listener";
   Fail "alb-certificate"; Create "hostedZone"; Create "lb-alias-record";
   Create "abe-example-repo"; Create "todo-app-image"; Create "todo-api-image";
   Create "ecr-access-policy"; Create "task-execution-role-policy-attachment";
   Create "website-task-logs"; Create "getRegion"; Create "todo-app-task";
   Create "abe-todos"; Create "allow-table-access"; Create "task-role";
   Create "allow-table-access-policy-attachment"; Create "todo-api-task"].

Definition degradedRun : Run :=
  default start (play (MultipleServices.program [sampleOption]) degraded start).

(** *** Two statements of the specification, as it words them *)

(** Certificate gating: whenever the secure listener exists, every
    validation wait has completed. *)
Definition validatedBeforeSecureListener (P : list Decl) : Prop :=
  ∀ s l w, reachable P s →
    l ∈ listeners P → isSecure l = true → d_name l ∈ created s →
    w ∈ validationWaits P → d_name w ∈ created s.

(** Autoscaling for every declared service: each service of the program
    has a scaling target of its own. *)
Definition everyServiceScaled (P : list Decl) : Prop :=
  ∀ svc, svc ∈ services P →
    ∃ target, target ∈ scalingTargets P ∧ scalesService target svc = true.

(** A table that cannot be reached: every command is rejected. *)
Definition unreachableTable : Command → option Json := λ _, None.

(** ** Auxiliary definitions for the further properties *)

(** Position [i] holds an element that compares equal to itself and to no
    element before it. *)
Definition isKeptPosition {A} (fn : A → A → bool) (arr : list A) (i : nat) : Prop :=
  ∃ x, arr !! i = Some x ∧ fn x x = true ∧
       ∀ j y, (j < i)%nat → arr !! j = Some y → fn x y = false.

(** The logical names of the callback's declarations for [n] retained
    challenges. *)
Definition callbackNames (n : nat) : list string :=
  ((λ index, MultipleServices.YOUR_DOMAIN +:+ "-cert-validation-record-" +:+ pretty index) <$> seq 0 n)
  ++ ((λ index, MultipleServices.YOUR_DOMAIN +:+ "-cert-dns-validation-" +:+ pretty index) <$> seq 0 n).

(** [d] waits for node [r], directly or through declarations of [P]. *)
Inductive needs (P : list Decl) : Decl → string → Prop :=
| needs_direct d r : r ∈ deps d → needs P d r
| needs_via d m r : d_name m ∈ deps d → m ∈ P → needs P m r → needs P d r.








(** * Part II: theorems *)

Import MultipleServices.

Ltac by_computation := apply (bool_decide_unpack _); vm_compute; exact I.

Example uniqWith_demo :
  uniqWith [ch "a" "n1" "CNAME" "v1"; ch "b" "n1" "CNAME" "v1"; ch "c" "n2" "CNAME" "v2"]
    sameRecord
  = [ch "a" "n1" "CNAME" "v1"; ch "c" "n2" "CNAME" "v2"].
Proof. reflexivity. Qed.

(** ** The deduplicator *)

Section uniqWith.
Context {A : Type} (fn : A → A → bool).

Lemma findIndex_from_range (p : A → bool) arr k :
  findIndex_from p arr k = -1 ∨ (k ≤ findIndex_from p arr k < k + Z.of_nat (length arr)).
Proof.
  revert k. induction arr as [|x r IH]; intros k; simpl; [by left|].
  destruct (p x); [right; lia|].
  destruct (IH (k + 1)) as [->|?]; [by left|right; lia].
Qed.

Lemma findIndex_from_app (p : A → bool) l1 l2 k :
  findIndex_from p (l1 ++ l2) k =
  if existsb p l1 then findIndex_from p l1 k
  else findIndex_from p l2 (k + Z.of_nat (length l1)).
Proof.
  revert k. induction l1 as [|x r IH]; intros k; simpl.
  - f_equal. lia.
  - destruct (p x); simpl; [done|]. rewrite IH. destruct (existsb p r); [done|].
    f_equal. lia.
Qed.

Lemma keep_unseen seen x rest :
  (findIndex (λ step, fn x step) (seen ++ x :: rest) =? Z.of_nat (length seen))
  = unseen fn seen x.
Proof.
  unfold findIndex, unseen. rewrite findIndex_from_app.
  destruct (existsb (fn x) seen) eqn:E; simpl.
  - apply Z.eqb_neq.
    pose proof (findIndex_from_range (λ step, fn x step) seen 0) as H. lia.
  - rewrite Z.add_0_l. destruct (fn x x); simpl; [apply Z.eqb_refl|].
    apply Z.eqb_neq.
    pose proof (findIndex_from_range (λ step, fn x step) rest (Z.of_nat (length seen) + 1)) as H. lia.
Qed.

Lemma filter_from_dedup seen l :
  filter_from (λ element index, (findIndex (λ step, fn element step) (seen ++ l) =? index))
    l (Z.of_nat (length seen))
  = dedup_from fn seen l.
Proof.
  revert seen. induction l as [|x rest IH]; intros seen; simpl; [done|].
  rewrite keep_unseen.
  specialize (IH (seen ++ [x])). rewrite <- app_assoc in IH. simpl in IH.
  rewrite length_app in IH. simpl in IH.
  replace (Z.of_nat (length seen) + 1) with (Z.of_nat (length seen + 1)) by lia.
  rewrite IH. done.
Qed.

Lemma uniqWith_dedup arr : uniqWith arr fn = dedup_from fn [] arr.
Proof. exact (filter_from_dedup [] arr). Qed.


(** *** When the comparator is equality of a key *)

Context {K : Type} `{!EqDecision K} (key : A → K).
Hypothesis fn_key : ∀ x y, fn x y = true ↔ key x = key y.

Lemma unseen_key seen x : unseen fn seen x = true ↔ key x ∉ key <$> seen.
Proof.
  unfold unseen. rewrite andb_true_iff, negb_true_iff, fn_key.
  split.
  - intros [Hex _] (y & Hk & Hy)%list_elem_of_fmap.
    assert (existsb (fn x) seen = true); [|congruence].
    apply existsb_exists. exists y. split; [by apply list_elem_of_In|by apply fn_key].
  - intros Hnot. split; [|done].
    apply not_true_is_false. intros (y & Hy & Hxy)%existsb_exists.
    apply Hnot, list_elem_of_fmap. exists y. split; [by apply fn_key|by apply list_elem_of_In].
Qed.

Lemma dedup_from_keys seen l k :
  k ∈ key <$> dedup_from fn seen l ↔ k ∈ key <$> l ∧ k ∉ key <$> seen.
Proof.
  revert seen. induction l as [|x rest IH]; intros seen; simpl.
  - rewrite elem_of_nil. tauto.
  - destruct (decide (k = key x)) as [->|Hne].
    + destruct (unseen fn seen x) eqn:E.
      * apply unseen_key in E. rewrite fmap_cons. set_solver.
      * rewrite IH. assert (key x ∈ key <$> seen); [|set_solver].
        destruct (decide (key x ∈ key <$> seen)) as [|Hn]; [done|].
        apply unseen_key in Hn. congruence.
    + destruct (unseen fn seen x); rewrite ?fmap_cons, ?elem_of_cons, IH, fmap_app;
        set_solver.
Qed.

Lemma dedup_from_NoDup seen l : NoDup (key <$> dedup_from fn seen l).
Proof.
  revert seen. induction l as [|x rest IH]; intros seen; simpl; [constructor|].
  destruct (unseen fn seen x); [|done].
  rewrite fmap_cons. constructor; [|done].
  rewrite dedup_from_keys, fmap_app. set_solver.
Qed.

Lemma dedup_from_id seen l :
  NoDup (key <$> l) → (∀ k, k ∈ key <$> l → k ∉ key <$> seen) →
  dedup_from fn seen l = l.
Proof.
  revert seen. induction l as [|x rest IH]; intros seen Hnd Hdis; simpl; [done|].
  rewrite fmap_cons in Hnd. apply NoDup_cons in Hnd as [Hx Hnd].
  assert (unseen fn seen x = true) as ->.
  { apply unseen_key, Hdis. rewrite fmap_cons. set_solver. }
  f_equal. apply IH; [done|].
  intros k Hk. rewrite fmap_app. specialize (Hdis k). rewrite fmap_cons in Hdis.
  set_solver.
Qed.

Lemma uniqWith_twice arr : uniqWith (uniqWith arr fn) fn = uniqWith arr fn.
Proof.
  rewrite !uniqWith_dedup. apply dedup_from_id; [apply dedup_from_NoDup|].
  intros k _. rewrite fmap_nil. apply not_elem_of_nil.
Qed.


Lemma idx_from_lookup seen l :
  Some <$> dedup_from fn seen l = ((seen ++ l) !!.) <$> idx_from fn seen l.
Proof.
  revert seen. induction l as [|x rest IH]; intros seen; simpl; [done|].
  specialize (IH (seen ++ [x])). rewrite <- app_assoc in IH. simpl in IH.
  destruct (unseen fn seen x); [|done].
  rewrite !fmap_cons, IH. f_equal. symmetry. by apply list_lookup_middle.
Qed.

Lemma idx_from_elem seen l i :
  i ∈ idx_from fn seen l ↔
  (length seen ≤ i)%nat ∧
  ∃ x, (seen ++ l) !! i = Some x ∧ key x ∉ key <$> take i (seen ++ l).
Proof.
  revert seen. induction l as [|x rest IH]; intros seen; simpl.
  - rewrite elem_of_nil, app_nil_r. split; [done|].
    intros (Hle & y & Hy%lookup_lt_Some & _). lia.
  - specialize (IH (seen ++ [x])). rewrite <- app_assoc, length_app in IH. simpl in IH.
    assert (unseen fn seen x = true ↔
            ∃ y, (seen ++ x :: rest) !! length seen = Some y
                 ∧ key y ∉ key <$> take (length seen) (seen ++ x :: rest)) as Hhere.
    { rewrite unseen_key, take_app_length, list_lookup_middle by done.
      split; [by eauto|]. by intros (y & [= <-] & ?). }
    destruct (unseen fn seen x) eqn:E.
    + rewrite elem_of_cons, IH. split.
      * intros [->|[? ?]]; [|split; [lia|done]]. split; [lia|]. by apply Hhere.
      * intros [Hle Hx]. destruct (decide (i = length seen)) as [->|]; [by left|].
        right. split; [lia|done].
    + rewrite IH. split.
      * intros [? ?]. split; [lia|done].
      * intros [Hle Hx]. destruct (decide (i = length seen)) as [->|].
        -- apply Hhere in Hx. done.
        -- split; [lia|done].
Qed.

Lemma idx_from_sorted seen l : StronglySorted lt (idx_from fn seen l).
Proof.
  revert seen. induction l as [|x rest IH]; intros seen; simpl; [constructor|].
  destruct (unseen fn seen x); [|done].
  constructor; [done|]. apply Forall_forall. intros i Hi.
  apply idx_from_elem in Hi as [Hle _]. rewrite length_app in Hle. simpl in Hle. lia.
Qed.

Lemma not_in_take (arr : list A) i x :
  key x ∉ key <$> take i arr ↔
  ∀ j y, (j < i)%nat → arr !! j = Some y → key y ≠ key x.
Proof.
  split.
  - intros Hnot j y Hj Hy Heq. apply Hnot, list_elem_of_fmap. exists y. split; [done|].
    apply list_elem_of_lookup. exists j. by rewrite lookup_take_lt.
  - intros Hall (y & Hk & (j & Hj)%list_elem_of_lookup)%list_elem_of_fmap.
    apply lookup_take_Some in Hj as [Hy Hlt]. by apply (Hall j y).
Qed.
End uniqWith.

Lemma sameRecord_triple x y : sameRecord x y = true ↔ triple x = triple y.
Proof.
  unfold sameRecord, triple. rewrite !andb_true_iff, !String.eqb_eq.
  split; [intros [[-> ->] ->]; done|]. intros [= -> -> ->]. done.
Qed.

Lemma pairwiseDistinct_NoDup arr : pairwiseDistinct arr ↔ NoDup (triple <$> arr).
Proof.
  rewrite NoDup_alt. unfold pairwiseDistinct. split.
  - intros Hpd i j t Hi Hj. rewrite list_lookup_fmap in Hi, Hj.
    destruct (arr !! i) as [x|] eqn:Ei; [|done].
    destruct (arr !! j) as [y|] eqn:Ej; [|done].
    simpl in *. destruct (decide (i = j)) as [|Hne]; [done|].
    specialize (Hpd i j x y Ei Ej Hne).
    assert (sameRecord x y = true); [|congruence].
    apply sameRecord_triple. congruence.
  - intros Hnd i j x y Hi Hj Hne. apply not_true_is_false.
    intros Heq%sameRecord_triple. apply Hne, (Hnd i j (triple x)).
    + by rewrite list_lookup_fmap, Hi.
    + by rewrite list_lookup_fmap, Hj, Heq.
Qed.

Lemma uniqWith_fixed_iff arr : uniqWith arr sameRecord = arr ↔ pairwiseDistinct arr.
Proof.
  rewrite pairwiseDistinct_NoDup, uniqWith_dedup. split.
  - intros <-. apply (dedup_from_NoDup sameRecord triple sameRecord_triple).
  - intros Hnd. apply (dedup_from_id sameRecord triple sameRecord_triple); [done|].
    intros k _. rewrite fmap_nil. apply not_elem_of_nil.
Qed.

Lemma uniqWith_length arr :
  length (uniqWith arr sameRecord)
  = size (list_to_set (triple <$> arr) : gset (string * string * string)).
Proof.
  rewrite uniqWith_dedup.
  rewrite <- (length_fmap triple).
  rewrite <- (size_list_to_set (C := gset (string * string * string)))
    by apply (dedup_from_NoDup sameRecord triple sameRecord_triple).
  f_equal. apply set_eq. intros t. rewrite !elem_of_list_to_set.
  rewrite (dedup_from_keys sameRecord triple sameRecord_triple), fmap_nil.
  set_solver.
Qed.

(** C1.  For every sequence of validation challenges, [uniqWith] with the
    comparator [sameRecord] returns exactly the challenges at the positions
    of first occurrence, in input order, where two challenges compare equal
    iff their record type, name and value are equal; so the output is as
    long as the input has distinct (type, name, value) triples. *)
Theorem uniqWith_first_occurrences (validationOptions : list CertificateDomainValidationOption) :
  (∀ x y, sameRecord x y = true ↔ triple x = triple y)
  ∧ (∃ positions : list nat,
        StronglySorted lt positions
        ∧ (∀ i, i ∈ positions ↔ isFirstOccurrence validationOptions i)
        ∧ Some <$> uniqWith validationOptions sameRecord = (validationOptions !!.) <$> positions)
  ∧ length (uniqWith validationOptions sameRecord)
    = size (list_to_set (triple <$> validationOptions) : gset (string * string * string)).
Proof.
  split; [exact sameRecord_triple|]. split; [|apply uniqWith_length].
  exists (idx_from sameRecord [] validationOptions). split_and!.
  - apply (idx_from_sorted sameRecord triple sameRecord_triple).
  - intros i. rewrite (idx_from_elem sameRecord triple sameRecord_triple). simpl.
    unfold isFirstOccurrence. split.
    + intros (_ & x & Hx & Hnot). exists x. split; [done|].
      by apply (not_in_take triple).
    + intros (x & Hx & Hall). split; [lia|]. exists x. split; [done|].
      by apply (not_in_take triple).
  - rewrite uniqWith_dedup. apply (idx_from_lookup sameRecord).
Qed.

(** C3.  The deduplicator is idempotent: applied to its own output it
    returns that output unchanged, and no two elements of the output
    compare equal.  The two are the same property: a sequence is a fixed
    point of the deduplicator iff its elements are pairwise distinct. *)
Theorem uniqWith_idempotent (validationOptions : list CertificateDomainValidationOption) :
  uniqWith (uniqWith validationOptions sameRecord) sameRecord
  = uniqWith validationOptions sameRecord
  ∧ pairwiseDistinct (uniqWith validationOptions sameRecord)
  ∧ (∀ arr, uniqWith arr sameRecord = arr ↔ pairwiseDistinct arr).
Proof.
  assert (pairwiseDistinct (uniqWith validationOptions sameRecord)) as Hpd.
  { apply pairwiseDistinct_NoDup. rewrite uniqWith_dedup.
    apply (dedup_from_NoDup sameRecord triple sameRecord_triple). }
  split_and!; [by apply uniqWith_fixed_iff|done|exact uniqWith_fixed_iff].
Qed.

(** ** Filters over indexed maps *)

Section filters.
Context {A B : Type}.

Lemma filter_imap_nil (p : B → bool) (q : A → bool) (l : list A) :
  ∀ g : nat → A → B, (∀ i y, p (g i y) = q y) →
  List.filter q l = [] → List.filter p (imap g l) = [].
Proof.
  induction l as [|y l IH]; intros g Hpq Hq; simpl in *; [done|].
  rewrite Hpq. destruct (q y); [done|]. apply IH; [|done]. intros i z. apply Hpq.
Qed.

Lemma filter_imap_singleton (p : B → bool) (q : A → bool) (l : list A) x :
  ∀ g : nat → A → B, (∀ i y, p (g i y) = q y) →
  List.filter q l = [x] →
  ∃ i, l !! i = Some x ∧ List.filter p (imap g l) = [g i x].
Proof.
  induction l as [|y l IH]; intros g Hpq Hq; simpl in *; [done|].
  rewrite Hpq. destruct (q y).
  - injection Hq as -> Hq. exists 0%nat. split; [done|]. f_equal.
    apply filter_imap_nil with q; [|done]. intros i z. apply Hpq.
  - destruct (IH (g ∘ S)) as (i & Hi & Hf); [intros i z; apply Hpq|done|].
    exists (S i). done.
Qed.

Lemma filter_imap_all (p : B → bool) (g : nat → A → B) (l : list A) :
  (∀ i y, p (g i y) = true) → List.filter p (imap g l) = imap g l.
Proof.
  revert g. induction l as [|y l IH]; intros g Hp; simpl; [done|].
  rewrite Hp. f_equal. apply IH. intros i z. apply Hp.
Qed.

Lemma filter_imap_none (p : B → bool) (g : nat → A → B) (l : list A) :
  (∀ i y, p (g i y) = false) → List.filter p (imap g l) = [].
Proof.
  revert g. induction l as [|y l IH]; intros g Hp; simpl; [done|].
  rewrite Hp. apply IH. intros i z. apply Hp.
Qed.

Lemma filter_key_nil `{!EqDecision B} (f : A → B) (l : list A) k :
  k ∉ f <$> l → List.filter (λ y, bool_decide (f y = k)) l = [].
Proof.
  induction l as [|y l IH]; intros Hk; simpl; [done|].
  rewrite fmap_cons, not_elem_of_cons in Hk. destruct Hk as [Hne Hk].
  rewrite bool_decide_eq_false_2 by done. by apply IH.
Qed.

Lemma filter_key_singleton `{!EqDecision B} (f : A → B) (l : list A) k :
  NoDup (f <$> l) → k ∈ f <$> l →
  ∃ x, x ∈ l ∧ f x = k ∧ List.filter (λ y, bool_decide (f y = k)) l = [x].
Proof.
  induction l as [|y l IH]; intros Hnd Hk; simpl in *; [by apply elem_of_nil in Hk|].
  apply NoDup_cons in Hnd as [Hy Hnd].
  destruct (decide (f y = k)) as [<-|Hne].
  - exists y. rewrite bool_decide_eq_true_2 by done. split_and!; [left|done|].
    f_equal. by apply filter_key_nil.
  - rewrite bool_decide_eq_false_2 by done.
    apply elem_of_cons in Hk as [?|Hk]; [done|].
    destruct (IH Hnd Hk) as (x & ? & ? & ?). exists x. split_and!; [by right|done..].
Qed.
End filters.

Lemma append_inj_r (p a b : string) : p +:+ a = p +:+ b → a = b.
Proof. induction p as [|c p IH]; simpl; [done|]. intros [= ?]. auto. Qed.

(** ** The certificate callback *)


Lemma certificateValidation_split vos :
  certificateValidation vos
  = validationRecords vos
    ++ imap (λ index r, certDnsValidation r index) (validationRecords vos).
Proof. reflexivity. Qed.

Lemma dnsRecords_made vos : dnsRecords (certificateValidation vos) = validationRecords vos.
Proof.
  rewrite certificateValidation_split. unfold dnsRecords.
  rewrite List.filter_app, filter_imap_none by done.
  rewrite app_nil_r. by apply filter_imap_all.
Qed.

Lemma validationWaits_made vos :
  validationWaits (certificateValidation vos)
  = imap (λ index r, certDnsValidation r index) (validationRecords vos).
Proof.
  rewrite certificateValidation_split. unfold validationWaits.
  rewrite List.filter_app. unfold validationRecords at 1.
  rewrite filter_imap_none by done. by apply filter_imap_all.
Qed.

Lemma validationRecords_names vos : NoDup (d_name <$> validationRecords vos).
Proof.
  apply NoDup_alt. intros i j n Hi Hj. unfold validationRecords in *.
  rewrite list_lookup_fmap, list_lookup_imap in Hi, Hj.
  destruct (uniqWith vos sameRecord !! i); [|done].
  destruct (uniqWith vos sameRecord !! j); [|done].
  simpl in *. injection Hi as <-. injection Hj as Hj.
  simpl in Hj. symmetry. by apply (inj (pretty (A:=nat))).
Qed.

(** C2.  Whatever challenges the certificate authority returns, the
    callback declares one DNS record and one validation wait per distinct
    (type, name, value) triple, and nothing else: for each challenge exactly
    one declared record carries its triple and exactly one wait watches that
    record.  Three challenges of which two share a triple give two records
    and two waits. *)
Theorem certificateValidation_one_per_triple
    (validationOptions : list CertificateDomainValidationOption) :
  let made := certificateValidation validationOptions in
  let distinct :=
    size (list_to_set (triple <$> validationOptions) : gset (string * string * string)) in
  length (dnsRecords made) = distinct
  ∧ length (validationWaits made) = distinct
  ∧ made = dnsRecords made ++ validationWaits made
  ∧ (∀ c, c ∈ validationOptions →
       ∃ rec wait,
         List.filter (λ d, bool_decide (recordTriple d = Some (triple c))) (dnsRecords made)
           = [rec]
         ∧ List.filter (λ w, bool_decide (d_name rec ∈ watchedRecords w)) (validationWaits made)
           = [wait]
         ∧ recordTriple rec = Some (triple c)
         ∧ watchedRecords wait = [d_name rec])
  ∧ (∀ x y z, triple x = triple y → triple z ≠ triple x →
       ∀ l, l ≡ₚ [x; y; z] →
       length (dnsRecords (certificateValidation l)) = 2%nat
       ∧ length (validationWaits (certificateValidation l)) = 2%nat).
Proof.
  intros made distinct. subst made distinct.
  assert (∀ vos, length (dnsRecords (certificateValidation vos))
            = size (list_to_set (triple <$> vos) : gset (string * string * string))) as Hrec.
  { intros vos. rewrite dnsRecords_made. unfold validationRecords.
    rewrite length_imap. apply uniqWith_length. }
  assert (∀ vos, length (validationWaits (certificateValidation vos))
            = size (list_to_set (triple <$> vos) : gset (string * string * string))) as Hwait.
  { intros vos. rewrite validationWaits_made, length_imap, <- dnsRecords_made. apply Hrec. }
  split_and!; [apply Hrec|apply Hwait| | |].
  - by rewrite dnsRecords_made, validationWaits_made.
  - intros c Hc. rewrite dnsRecords_made, validationWaits_made.
    destruct (filter_key_singleton triple (uniqWith validationOptions sameRecord) (triple c))
      as (c0 & Hc0 & Htr & Hfil).
    { rewrite uniqWith_dedup. apply (dedup_from_NoDup sameRecord triple sameRecord_triple). }
    { rewrite uniqWith_dedup.
      apply (dedup_from_keys sameRecord triple sameRecord_triple).
      split; [by apply list_elem_of_fmap_2|]. rewrite fmap_nil. apply not_elem_of_nil. }
    destruct (filter_imap_singleton
                (λ d, bool_decide (recordTriple d = Some (triple c)))
                (λ y, bool_decide (triple y = triple c))
                (uniqWith validationOptions sameRecord) c0
                (λ index validationOption, certValidationRecord validationOption index))
      as (i & Hi & Hrecs); [|done|].
    { intros j y. apply bool_decide_ext. unfold recordTriple, triple; simpl.
      split; [by intros [= -> -> ->]|by intros [= -> -> ->]]. }
    set (rec := certValidationRecord c0 i) in *.
    assert (rec ∈ validationRecords validationOptions) as Hin.
    { apply list_elem_of_lookup. exists i. unfold validationRecords.
      by rewrite list_lookup_imap, Hi. }
    destruct (filter_key_singleton d_name (validationRecords validationOptions) (d_name rec))
      as (r & Hr & Hname & Hfr);
      [apply validationRecords_names|by apply list_elem_of_fmap_2|].
    destruct (filter_imap_singleton
                (λ w, bool_decide (d_name rec ∈ watchedRecords w))
                (λ y, bool_decide (d_name y = d_name rec))
                (validationRecords validationOptions) r
                (λ index r, certDnsValidation r index))
      as (j & Hj & Hwaits); [|done|].
    { intros k y. apply bool_decide_ext.
      change (watchedRecords (certDnsValidation y k)) with [d_name y].
      rewrite list_elem_of_singleton. split; congruence. }
    exists rec, (certDnsValidation r j). split_and!; [done|done| |].
    + subst rec. change (recordTriple (certValidationRecord c0 i)) with (Some (triple c0)).
      by rewrite Htr.
    + change (watchedRecords (certDnsValidation r j)) with [d_name r]. congruence.
  - intros x y z Hxy Hzx l Hl. rewrite Hrec, Hwait.
    assert ((list_to_set (triple <$> l) : gset (string * string * string))
            = list_to_set [triple x; triple z]) as ->.
    { apply set_eq. intros t. rewrite !elem_of_list_to_set, Hl. simpl.
      rewrite !elem_of_cons, !elem_of_nil. rewrite <- Hxy. tauto. }
    rewrite size_list_to_set; [done|].
    apply NoDup_cons. split; [|apply NoDup_singleton].
    rewrite list_elem_of_singleton. congruence.
Qed.

(** ** Runs of the engine *)

Section engine.
Context (P : list Decl).

Lemma step_inv s s' :
  step P s s' →
  ∃ d, ready P s d ∧
       (s' = {| created := d_name d :: created s; failed := failed s |}
        ∨ s' = {| created := created s; failed := d_name d :: failed s |}).
Proof. intros [d ? Hr|d ? Hr]; exists d; auto. Qed.

Lemma step_created_mono s s' n : step P s s' → n ∈ created s → n ∈ created s'.
Proof. intros [d ? _|d ? _] Hn; simpl; [by right|done]. Qed.

(** Whatever has been submitted had everything it reads resolved. *)
Lemma reachable_deps s :
  reachable P s →
  ∀ n, n ∈ attempted s →
  ∃ d, d ∈ P ∧ d_name d = n ∧ ∀ r, r ∈ deps d → r ∈ created s.
Proof.
  unfold reachable. revert s.
  apply (rtc_ind_r (λ s, ∀ n, n ∈ attempted s →
           ∃ d, d ∈ P ∧ d_name d = n ∧ ∀ r, r ∈ deps d → r ∈ created s) start).
  - intros n Hn. by apply elem_of_nil in Hn.
  - intros s s' Hrun Hstep IH n Hn.
    assert (n ∈ attempted s ∨ ∃ d, ready P s d ∧ d_name d = n) as [Hold|(d & Hr & <-)].
    { destruct Hstep as [d s Hr|d s Hr]; unfold attempted in *; simpl in *.
      - apply elem_of_cons in Hn as [->|Hn]; eauto.
      - rewrite elem_of_app, elem_of_cons in Hn. rewrite elem_of_app.
        destruct Hn as [?|[->|?]]; eauto. }
    + destruct (IH n Hold) as (d & ? & ? & Hd). exists d. split_and!; [done..|].
      intros r Hr. by eapply step_created_mono, Hd.
    + destruct Hr as (? & _ & Hd). exists d. split_and!; [done..|].
      intros r Hr. by eapply step_created_mono, Hd.
Qed.

(** Nothing is submitted twice. *)
Lemma reachable_once s : reachable P s → NoDup (attempted s).
Proof.
  unfold reachable. revert s. apply (rtc_ind_r (λ s, NoDup (attempted s)) start).
  - constructor.
  - intros s s' Hrun Hstep IH. destruct Hstep as [d s (_ & Hnew & _)|d s (_ & Hnew & _)]; unfold attempted in *; simpl.
    + by constructor.
    + apply NoDup_app in IH as (? & Hdis & ?).
      rewrite elem_of_app in Hnew.
      apply NoDup_app. split_and!; [done| |constructor; tauto].
      intros x Hx [->|?]%elem_of_cons; [tauto|]. by eapply Hdis.
Qed.

Lemma reachable_failed_not_created s n :
  reachable P s → n ∈ failed s → n ∉ created s.
Proof.
  intros Hrun%reachable_once Hf Hc. unfold attempted in Hrun.
  apply NoDup_app in Hrun as (_ & Hdis & _). by eapply Hdis.
Qed.

Lemma declared_Some n d : declared P n = Some d → d ∈ P ∧ d_name d = n.
Proof.
  unfold declared. intros [Hin Hn%String.eqb_eq]%List.find_some.
  split; [by apply list_elem_of_In|done].
Qed.

Lemma readyb_ready s d : d ∈ P → readyb s d = true → ready P s d.
Proof.
  unfold readyb, ready. rewrite andb_true_iff, bool_decide_eq_true, forallb_forall.
  intros Hin [Hnew Hdeps]. split_and!; [done..|].
  intros r Hr%list_elem_of_In. by apply Hdeps, bool_decide_eq_true in Hr.
Qed.

Lemma play_rtc evs : ∀ s s', play P evs s = Some s' → rtc (step P) s s'.
Proof.
  induction evs as [|ev evs IH]; intros s s'; simpl.
  - intros [= ->]. constructor.
  - destruct (declared P (eventNode ev)) as [d|] eqn:Ed; [|done].
    destruct (readyb s d) eqn:Er; [|done]. intros Hplay.
    apply declared_Some in Ed as [Hin Hn]. apply readyb_ready in Er; [|done].
    eapply rtc_l; [|by apply IH]. destruct ev as [n|n]; simpl in *; subst n.
    + by apply (step_create P d s).
    + by apply (step_fail P d s).
Qed.

Lemma play_reachable evs s : play P evs start = Some s → reachable P s.
Proof. apply play_rtc. Qed.

(** Submitting well-ordered declarations in source order is a run. *)
Lemma run_in_order rest : ∀ seen,
  wellOrdered_from seen rest = true → (∀ d, d ∈ rest → d ∈ P) →
  rtc (step P) {| created := seen; failed := [] |}
               {| created := reverse (d_name <$> rest) ++ seen; failed := [] |}.
Proof.
  induction rest as [|d rest IH]; intros seen Hwo Hin; simpl in *.
  - constructor.
  - rewrite !andb_true_iff, bool_decide_eq_true, forallb_forall in Hwo.
    destruct Hwo as [[Hnew Hdeps] Hwo].
    eapply rtc_l.
    + apply (step_create P d). split_and!; [apply Hin; left| |].
      * unfold attempted. simpl. by rewrite app_nil_r.
      * intros r Hr%list_elem_of_In. by apply Hdeps, bool_decide_eq_true in Hr.
    + simpl. rewrite reverse_cons, <- app_assoc. simpl. apply IH; [done|].
      intros d' Hd'. apply Hin. by right.
Qed.

Lemma quiescent_attempted s d :
  quiescent P s → d ∈ P → (∀ r, r ∈ deps d → r ∈ created s) → d_name d ∈ attempted s.
Proof.
  intros Hq Hin Hdeps. destruct (decide (d_name d ∈ attempted s)) as [|Hnot]; [done|].
  destruct (Hq d). by split_and!.
Qed.
End engine.

(** ** Stage programs *)

Lemma certificateValidation_elem vos d :
  d ∈ MultipleServices.certificateValidation vos →
  ∃ i, (∃ c, d = MultipleServices.certValidationRecord c i)
       ∨ (∃ r, d = MultipleServices.certDnsValidation r i).
Proof.
  unfold MultipleServices.certificateValidation. cbv zeta.
  rewrite elem_of_app, !elem_of_lookup_imap.
  intros [(i & c & -> & _)|(i & r & -> & _)]; exists i; eauto.
Qed.

Lemma certificateValidation_name vos d :
  d ∈ MultipleServices.certificateValidation vos → callbackName (d_name d) = true.
Proof. intros (i & [(c & ->)|(r & ->)])%certificateValidation_elem; reflexivity. Qed.

Lemma certificateValidation_type vos d :
  d ∈ MultipleServices.certificateValidation vos →
  d_typ d = "awsClassic.route53.Record" ∨ d_typ d = "awsClassic.acm.CertificateValidation".
Proof. intros (i & [(c & ->)|(r & ->)])%certificateValidation_elem; [by left|by right]. Qed.

Lemma NoDup_fmap_eq {A B} (f : A → B) (l : list A) x y :
  NoDup (f <$> l) → x ∈ l → y ∈ l → f x = f y → x = y.
Proof.
  intros Hnd (i & Hi)%list_elem_of_lookup (j & Hj)%list_elem_of_lookup Heq.
  assert (i = j) as ->; [|congruence].
  apply (proj1 (NoDup_alt _) Hnd i j (f x)).
  - by rewrite list_lookup_fmap, Hi.
  - by rewrite list_lookup_fmap, Hj, Heq.
Qed.

Section staged.
Variable decls : list Decl.
Hypothesis decls_names : NoDup (d_name <$> decls).
Hypothesis decls_plain : forallb (λ d, negb (callbackName (d_name d))) decls = true.

Lemma staged_unique vos d d' :
  d ∈ decls → d' ∈ staged decls vos → d_name d' = d_name d → d' = d.
Proof.
  intros Hd [Hd'|Hd']%elem_of_app Hn.
  - by apply (NoDup_fmap_eq d_name decls).
  - apply certificateValidation_name in Hd'. rewrite Hn in Hd'.
    rewrite forallb_forall in decls_plain.
    apply list_elem_of_In, decls_plain in Hd. by rewrite Hd' in Hd.
Qed.

Lemma staged_filter typ vos :
  typ ≠ "awsClassic.route53.Record" → typ ≠ "awsClassic.acm.CertificateValidation" →
  List.filter (hasType typ) (staged decls vos) = List.filter (hasType typ) decls.
Proof.
  intros H1 H2. unfold staged. rewrite List.filter_app.
  assert (List.filter (hasType typ) (MultipleServices.certificateValidation vos) = []) as ->;
    [|by rewrite app_nil_r].
  unfold MultipleServices.certificateValidation. cbv zeta.
  rewrite List.filter_app, !filter_imap_none; [done| |].
  - intros i r. apply String.eqb_neq. simpl. congruence.
  - intros i c. apply String.eqb_neq. simpl. congruence.
Qed.

(** A top-level declaration is submitted only when everything it reads,
    and everything it lists under [dependsOn], has resolved. *)
Lemma staged_after vos s d r :
  reachable (staged decls vos) s → d ∈ decls → d_name d ∈ attempted s →
  r ∈ deps d → r ∈ created s.
Proof.
  intros Hrun Hd Hn Hr.
  destruct (reachable_deps _ _ Hrun _ Hn) as (d' & Hd' & Hname & Hdeps).
  apply (staged_unique vos) in Hname; [|done..]. subst d'. by apply Hdeps.
Qed.

Lemma staged_failed_blocks vos s d r :
  reachable (staged decls vos) s → d ∈ decls → r ∈ deps d → r ∈ failed s →
  d_name d ∉ attempted s.
Proof.
  intros Hrun Hd Hr Hf Hn.
  apply (reachable_failed_not_created _ _ _ Hrun Hf). by eapply staged_after.
Qed.
End staged.

Lemma multi_names : NoDup (d_name <$> MultipleServices.declarations).
Proof. by_computation. Qed.

Lemma multi_plain :
  forallb (λ d, negb (callbackName (d_name d))) MultipleServices.declarations = true.
Proof. reflexivity. Qed.

Lemma single_names : NoDup (d_name <$> CustomImage.declarations).
Proof. by_computation. Qed.

Lemma single_plain :
  forallb (λ d, negb (callbackName (d_name d))) CustomImage.declarations = true.
Proof. reflexivity. Qed.

Lemma multi_staged vos :
  MultipleServices.program vos = staged MultipleServices.declarations vos.
Proof. reflexivity. Qed.

Lemma single_staged vos :
  CustomImage.program vos = staged CustomImage.declarations vos.
Proof. reflexivity. Qed.

Lemma staged_service_after decls vos s svc d :
  NoDup (d_name <$> decls) →
  forallb (λ d, negb (callbackName (d_name d))) decls = true →
  waitsForRouting decls = true →
  reachable (staged decls vos) s →
  svc ∈ services (staged decls vos) → d_name svc ∈ attempted s →
  d ∈ listeners (staged decls vos)
  ∨ (d ∈ listenerRules (staged decls vos) ∧ routesTo d svc = true) →
  d_name d ∈ created s.
Proof.
  intros Hnames Hplain Hwaits Hrun Hsvc Hreq Hd.
  unfold services, listeners, listenerRules in Hsvc, Hd.
  rewrite (staged_filter decls "awsnative.ecs.Service") in Hsvc by done.
  rewrite (staged_filter decls "awsnative.elasticloadbalancingv2.Listener") in Hd by done.
  rewrite (staged_filter decls "awsClassic.lb.ListenerRule") in Hd by done.
  unfold waitsForRouting in Hwaits. rewrite forallb_forall in Hwaits.
  apply list_elem_of_In in Hsvc. specialize (Hwaits _ Hsvc).
  rewrite forallb_forall in Hwaits.
  apply (staged_after decls Hnames Hplain vos s svc); [done| |done|].
  - apply List.filter_In in Hsvc as [Hsvc _]. by apply list_elem_of_In.
  - assert (bool_decide (d_name d ∈ deps svc) = true) as Hb;
      [|by apply bool_decide_eq_true in Hb].
    apply Hwaits, in_or_app.
    destruct Hd as [Hd|[Hd Hroute]]; [left; by apply list_elem_of_In|right].
    apply List.filter_In. split; [by apply list_elem_of_In|done].
Qed.

(** C7.  In every run of a stage program and for every service it
    declares, the service is requested only when every listener (plain and
    secure) and every rule that routes to the service has been created,
    whatever order the engine chooses. *)
Theorem service_after_listeners_and_rule (P : list Decl) (s : Run) (svc d : Decl) :
  stageProgram P → reachable P s →
  svc ∈ services P → d_name svc ∈ attempted s →
  d ∈ listeners P ∨ (d ∈ listenerRules P ∧ routesTo d svc = true) →
  d_name d ∈ created s.
Proof.
  intros [[vos ->]|[vos ->]].
  - apply staged_service_after; [apply multi_names|apply multi_plain|reflexivity].
  - apply staged_service_after; [apply single_names|apply single_plain|reflexivity].
Qed.

(** ** Certificate gating and failure *)

Lemma declared_in P n d : declared P n = Some d → d ∈ P.
Proof. by intros [? _]%declared_Some. Qed.

Lemma listeners_program vos :
  listeners (program vos) = [httpsRedirectListener; todoListener].
Proof.
  unfold listeners. rewrite multi_staged, staged_filter by done. reflexivity.
Qed.

Lemma services_program vos : services (program vos) = [todoAppService; todoApiService].
Proof.
  unfold services. rewrite multi_staged, staged_filter by done. reflexivity.
Qed.


Lemma validationWaits_program vos :
  validationWaits (program vos) = validationWaits (certificateValidation vos).
Proof. unfold validationWaits, program. by rewrite List.filter_app. Qed.

(** C5, as stated, fails: with one challenge returned, the schedule
    [listenerFirst] is a run in which the secure listener exists while the
    validation wait has not completed. *)
Lemma secure_listener_before_validation :
  ¬ validatedBeforeSecureListener (program [sampleOption]).
Proof.
  intros Hclaim.
  destruct (play (program [sampleOption]) listenerFirst start) as [s|] eqn:Hplay;
    [|by vm_compute in Hplay].
  pose proof (play_reachable _ _ _ Hplay) as Hrun.
  vm_compute in Hplay. injection Hplay as <-.
  specialize (Hclaim _ todoListener
                (certDnsValidation (certValidationRecord sampleOption 0) 0) Hrun).
  assert ("uncld.net-cert-dns-validation-0" ∉ 
          ["todo-listener"; "alb-certificate"; "todo-app-tg"; "app-lb"; "web-secgrp";
           "defaultVpcSubnets"; "defaultVpc"]) as Hnot by by_computation.
  apply Hnot, Hclaim.
  - rewrite listeners_program. set_solver.
  - reflexivity.
  - simpl. left.
  - apply list_elem_of_In. vm_compute. auto.
Qed.

Lemma secure_listener_program vos l :
  l ∈ listeners (program vos) → isSecure l = true → l = todoListener.
Proof.
  rewrite listeners_program, !elem_of_cons, elem_of_nil.
  intros [->|[->|[]]]; [discriminate|done].
Qed.

Lemma todoListener_declared : todoListener ∈ declarations.
Proof. apply (declared_in _ "todo-listener"). reflexivity. Qed.

(** C5, amended.  The secure listener is requested only after the
    certificate request, the load balancer and the primary target group
    have returned: these three are all it reads, and no validation wait is
    among them. *)
Theorem secure_listener_after_certificate_request
    (vos : list CertificateDomainValidationOption) (s : Run) (l : Decl) :
  reachable (program vos) s →
  l ∈ listeners (program vos) → isSecure l = true → d_name l ∈ attempted s →
  (d_name certificate ∈ created s ∧ d_name alb ∈ created s ∧ d_name todoAppTg ∈ created s)
  ∧ deps l = [d_name alb; d_name certificate; d_name todoAppTg]
  ∧ (∀ w, w ∈ validationWaits (program vos) → d_name w ∉ deps l).
Proof.
  intros Hrun Hl Hsec Hreq. apply secure_listener_program in Hl; [|done]. subst l.
  rewrite multi_staged in Hrun.
  pose proof (staged_after _ multi_names multi_plain vos s todoListener) as Hafter.
  split_and!.
  - apply Hafter; [done|apply todoListener_declared|done|]. by_computation.
  - apply Hafter; [done|apply todoListener_declared|done|]. by_computation.
  - apply Hafter; [done|apply todoListener_declared|done|]. by_computation.
  - reflexivity.
  - intros w Hw. rewrite validationWaits_program in Hw.
    apply list_elem_of_In, List.filter_In in Hw as [Hw%list_elem_of_In _].
    apply certificateValidation_name in Hw. intros Hin.
    change (deps todoListener) with ["app-lb"; "alb-certificate"; "todo-app-tg"] in Hin.
    rewrite !elem_of_cons, elem_of_nil in Hin.
    destruct Hin as [E|[E|[E|[]]]]; rewrite E in Hw; discriminate.
Qed.

(** What a refused certificate request blocks, and what it leaves. *)
Lemma certificate_failure_blocks
    (vos : list CertificateDomainValidationOption) (s : Run) :
  reachable (program vos) s → d_name certificate ∈ failed s →
  report s = FailedWith (failed s)
  ∧ (d_name todoListener ∉ attempted s)
  ∧ (∀ d, d ∈ certificateValidation vos → d_name d ∉ attempted s)
  ∧ (∀ svc, svc ∈ services (program vos) → d_name svc ∉ attempted s)
  ∧ (∀ l, l ∈ listeners (program vos) → d_name l ∈ created s → l = httpsRedirectListener)
  ∧ (quiescent (program vos) s → failed s = [d_name certificate] →
     d_name httpsRedirectListener ∈ created s).
Proof.
  intros Hrun Hfail.
  assert (d_name certificate ∉ created s) as Hnot
    by by apply (reachable_failed_not_created (program vos)).
  assert (d_name todoListener ∉ attempted s) as Hlistener.
  { rewrite multi_staged in Hrun.
    apply (staged_failed_blocks _ multi_names multi_plain vos s _ (d_name certificate));
      [done|apply todoListener_declared|by_computation|done]. }
  split_and!.
  - unfold report. destruct (failed s); [by apply elem_of_nil in Hfail|done].
  - done.
  - intros d Hd Hreq.
    destruct (reachable_deps _ _ Hrun _ Hreq) as (d' & Hd' & Hname & Hdeps).
    apply certificateValidation_name in Hd. rewrite <- Hname in Hd.
    apply Hnot, Hdeps. apply elem_of_app in Hd' as [Hd'|Hd'].
    + pose proof multi_plain as Hplain. rewrite forallb_forall in Hplain.
      apply list_elem_of_In, Hplain in Hd'. by rewrite Hd in Hd'.
    + apply certificateValidation_elem in Hd' as (i & [(c & ->)|(r & ->)]);
        unfold deps; simpl; set_solver.
  - intros svc Hsvc Hreq. rewrite services_program in Hsvc.
    apply Hlistener. unfold attempted. apply elem_of_app. left.
    rewrite multi_staged in Hrun.
    apply (staged_after _ multi_names multi_plain vos s svc); [done| |done|].
    + rewrite !elem_of_cons, elem_of_nil in Hsvc.
      destruct Hsvc as [->|[->|[]]];
        [apply (declared_in _ "todo-app-service")|apply (declared_in _ "todo-api-service")];
        reflexivity.
    + rewrite !elem_of_cons, elem_of_nil in Hsvc.
      destruct Hsvc as [->|[->|[]]]; by_computation.
  - intros l Hl Hcreated. rewrite listeners_program in Hl.
    rewrite !elem_of_cons, elem_of_nil in Hl. destruct Hl as [->|[->|[]]]; [done|].
    destruct Hlistener. unfold attempted. apply elem_of_app. by left.
  - intros Hq Honly.
    assert (∀ d, d ∈ program vos → d_name d ≠ d_name certificate →
                 (∀ r, r ∈ deps d → r ∈ created s) → d_name d ∈ created s) as Hnext.
    { intros d Hd Hne Hdeps.
      pose proof (quiescent_attempted _ _ _ Hq Hd Hdeps) as Hreq.
      unfold attempted in Hreq. rewrite Honly in Hreq. set_solver. }
    assert (∀ n d, declared (program vos) n = Some d → d ∈ program vos) as Hin
      by (intros n d; apply declared_in).
    assert (d_name defaultVpc ∈ created s) as H1.
    { apply Hnext; [by apply (Hin "defaultVpc")|done|]. intros r Hr. by apply elem_of_nil in Hr. }
    assert (d_name defaultVpcSubnets ∈ created s) as H2.
    { apply Hnext; [by apply (Hin "defaultVpcSubnets")|done|].
      intros r Hr. change (deps defaultVpcSubnets) with ["defaultVpc"] in Hr. set_solver. }
    assert (d_name group ∈ created s) as H3.
    { apply Hnext; [by apply (Hin "web-secgrp")|done|].
      intros r Hr. change (deps group) with ["defaultVpc"] in Hr. set_solver. }
    assert (d_name alb ∈ created s) as H4.
    { apply Hnext; [by apply (Hin "app-lb")|done|].
      intros r Hr. change (deps alb) with ["web-secgrp"; "defaultVpcSubnets"] in Hr.
      set_solver. }
    apply Hnext; [by apply (Hin "https-redirect-listener")|done|].
    intros r Hr. change (deps httpsRedirectListener) with ["app-lb"] in Hr. set_solver.
Qed.

Lemma certificate_failure_at_rest
    (vos : list CertificateDomainValidationOption) (s : Run) :
  quiescent (program vos) s → failed s = [d_name certificate] →
  d_name alb ∈ created s.
Proof.
  intros Hq Honly.
  assert (∀ d, d ∈ program vos → d_name d ≠ d_name certificate →
               (∀ r, r ∈ deps d → r ∈ created s) → d_name d ∈ created s) as Hnext.
  { intros d Hd Hne Hdeps.
    pose proof (quiescent_attempted _ _ _ Hq Hd Hdeps) as Hreq.
    unfold attempted in Hreq. rewrite Honly in Hreq. set_solver. }
  assert (∀ n d, declared (program vos) n = Some d → d ∈ program vos) as Hin
    by (intros n d; apply declared_in).
  assert (d_name defaultVpc ∈ created s) as H1.
  { apply Hnext; [by apply (Hin "defaultVpc")|done|]. intros r Hr. by apply elem_of_nil in Hr. }
  assert (d_name defaultVpcSubnets ∈ created s) as H2.
  { apply Hnext; [by apply (Hin "defaultVpcSubnets")|done|].
    intros r Hr. change (deps defaultVpcSubnets) with ["defaultVpc"] in Hr. set_solver. }
  assert (d_name group ∈ created s) as H3.
  { apply Hnext; [by apply (Hin "web-secgrp")|done|].
    intros r Hr. change (deps group) with ["defaultVpc"] in Hr. set_solver. }
  apply Hnext; [by apply (Hin "app-lb")|done|].
  intros r Hr. change (deps alb) with ["web-secgrp"; "defaultVpcSubnets"] in Hr.
  set_solver.
Qed.

(** C6.  In every run in which the certificate request is refused, the
    engine's report names the certificate, and neither the secure listener,
    nor a record or wait of the callback, nor a service is ever requested.
    The program has two listeners; the only one that can exist is
    [https-redirect-listener]: the plain one, on port 80 of the load
    balancer over HTTP, which redirects to HTTPS and waits for the load
    balancer alone.  Once the run has come to rest with no other refusal,
    the load balancer and that listener exist, and it is the only
    listener. *)
Theorem certificate_failure_degraded
    (vos : list CertificateDomainValidationOption) (s : Run) :
  reachable (program vos) s → d_name certificate ∈ failed s →
  (∃ nodes, report s = FailedWith nodes ∧ d_name certificate ∈ nodes)
  ∧ (d_name todoListener ∉ attempted s)
  ∧ (∀ d, d ∈ certificateValidation vos → d_name d ∉ attempted s)
  ∧ (∀ svc, svc ∈ services (program vos) → d_name svc ∉ attempted s)
  ∧ listeners (program vos) = [httpsRedirectListener; todoListener]
  ∧ (∀ l, l ∈ listeners (program vos) → d_name l ∈ created s → l = httpsRedirectListener)
  ∧ isSecure httpsRedirectListener = false
  ∧ field "port" (d_args httpsRedirectListener) = Some (Num 80)
  ∧ field "protocol" (d_args httpsRedirectListener) = Some (Str "HTTP")
  ∧ field "loadBalancerArn" (d_args httpsRedirectListener) = Some (alb.@"arn")
  ∧ field "defaultActions" (d_args httpsRedirectListener)
    = Some (Arr [Obj ["type" :- Str "redirect";
                      "redirectConfig" :- Obj ["statusCode" :- Str "HTTP_301";
                                               "host" :- Str "#{host}";
                                               "path" :- Str "/#{path}";
                                               "protocol" :- Str "HTTPS"]]])
  ∧ deps httpsRedirectListener = [d_name alb]
  ∧ (quiescent (program vos) s → failed s = [d_name certificate] →
     d_name alb ∈ created s
     ∧ d_name httpsRedirectListener ∈ created s
     ∧ List.filter (λ l, bool_decide (d_name l ∈ created s)) (listeners (program vos))
       = [httpsRedirectListener]).
Proof.
  intros Hrun Hfail.
  destruct (certificate_failure_blocks vos s Hrun Hfail)
    as (Hreport & Hlistener & Hcallback & Hsvc & Honly & Hplain).
  split_and!; try done.
  - exists (failed s). by split.
  - apply listeners_program.
  - intros Hq Hone. specialize (Hplain Hq Hone). split_and!.
    + by apply (certificate_failure_at_rest vos).
    + done.
    + rewrite listeners_program. simpl.
      rewrite bool_decide_eq_true_2 by done.
      rewrite bool_decide_eq_false_2; [done|].
      intros Hc. apply Hlistener. unfold attempted. apply elem_of_app. by left.
Qed.

(** ** Source order is a run *)

Lemma ready_readyb P s d : ready P s d → readyb s d = true.
Proof.
  intros (_ & Hnew & Hdeps). unfold readyb.
  rewrite andb_true_iff, bool_decide_eq_true, forallb_forall. split; [done|].
  intros r Hr%list_elem_of_In. by apply bool_decide_eq_true, Hdeps.
Qed.

Lemma quiescentb_quiescent P s : quiescentb P s = true → quiescent P s.
Proof.
  unfold quiescentb. rewrite forallb_forall. intros Hq d Hr.
  pose proof (ready_readyb _ _ _ Hr) as Hb. destruct Hr as (Hin%list_elem_of_In & _).
  apply Hq in Hin. by rewrite Hb in Hin.
Qed.


Lemma wellOrdered_from_app l1 : ∀ seen l2,
  wellOrdered_from seen (l1 ++ l2)
  = wellOrdered_from seen l1 && wellOrdered_from (reverse (d_name <$> l1) ++ seen) l2.
Proof.
  induction l1 as [|d l1 IH]; intros seen l2; simpl; [done|].
  rewrite IH, reverse_cons, <- !app_assoc, <- !andb_assoc. done.
Qed.

Lemma records_ordered U : ∀ k seen,
  "hostedZone" ∈ seen → "alb-certificate" ∈ seen →
  (∀ j c, (k ≤ j)%nat → d_name (certValidationRecord c j) ∉ seen) →
  wellOrdered_from seen (imap (λ i c, certValidationRecord c (k + i)) U) = true.
Proof.
  induction U as [|c U IH]; intros k seen Hzone Hcert Hfresh; [done|].
  rewrite imap_cons. cbn [wellOrdered_from]. rewrite !andb_true_iff. split_and!.
  - apply bool_decide_eq_true. rewrite Nat.add_0_r. by apply (Hfresh k c).
  - simpl. rewrite !bool_decide_eq_true_2 by done. done.
  - rewrite (imap_ext _ (λ i c, certValidationRecord c (S k + i))).
    2:{ intros i x _. simpl. f_equal. lia. }
    apply IH; [by right|by right|].
    intros j c' Hj. rewrite not_elem_of_cons. split; [|apply Hfresh; lia].
    simpl. intros Heq. do 2 apply append_inj_r in Heq.
    apply (inj (pretty (A:=nat))) in Heq. lia.
Qed.

Lemma waits_ordered R : ∀ k seen,
  "alb-certificate" ∈ seen → (∀ r, r ∈ R → d_name r ∈ seen) →
  (∀ j r, (k ≤ j)%nat → d_name (certDnsValidation r j) ∉ seen) →
  wellOrdered_from seen (imap (λ i r, certDnsValidation r (k + i)) R) = true.
Proof.
  induction R as [|r R IH]; intros k seen Hcert Hrec Hfresh; [done|].
  rewrite imap_cons. cbn [wellOrdered_from]. rewrite !andb_true_iff. split_and!.
  - apply bool_decide_eq_true. rewrite Nat.add_0_r. by apply (Hfresh k r).
  - simpl. rewrite !andb_true_iff, !bool_decide_eq_true. split_and!; [done|apply Hrec; by left|done|done].
  - rewrite (imap_ext _ (λ i r, certDnsValidation r (S k + i))).
    2:{ intros i x _. simpl. f_equal. lia. }
    apply IH; [by right| |].
    + intros r' Hr'. right. apply Hrec. by right.
    + intros j r' Hj. rewrite not_elem_of_cons. split; [|apply Hfresh; lia].
      simpl. intros Heq. do 2 apply append_inj_r in Heq.
    apply (inj (pretty (A:=nat))) in Heq. lia.
Qed.

Lemma callbackName_fresh n :
  callbackName n = true → n ∉ reverse (d_name <$> declarations).
Proof.
  intros Hn Hin. rewrite elem_of_reverse in Hin.
  apply list_elem_of_fmap in Hin as (d & -> & Hd).
  pose proof multi_plain as Hplain. rewrite forallb_forall in Hplain.
  apply list_elem_of_In, Hplain in Hd. by rewrite Hn in Hd.
Qed.

(** Every stage program is in dependency order, whatever the certificate
    authority answers. *)
Lemma program_ordered vos : wellOrdered (program vos) = true.
Proof.
  unfold wellOrdered, program. rewrite certificateValidation_split.
  rewrite !wellOrdered_from_app, app_nil_r, !andb_true_iff. split_and!.
  - vm_compute. reflexivity.
  - apply (records_ordered _ 0%nat).
    + by_computation.
    + by_computation.
    + intros j c _. by apply callbackName_fresh.
  - apply (waits_ordered _ 0%nat).
    + apply elem_of_app. right. by_computation.
    + intros r Hr. apply elem_of_app. left. apply elem_of_reverse.
      by apply list_elem_of_fmap_2.
    + intros j r _. rewrite elem_of_app, elem_of_reverse. intros [Hin|Hin].
      * apply list_elem_of_fmap in Hin as (d & Hname & Hd).
        unfold validationRecords in Hd.
        apply elem_of_lookup_imap in Hd as (i & c & -> & _). discriminate Hname.
      * by apply callbackName_fresh in Hin.
Qed.

(** ** Routing *)

Lemma inOrder_reachable P : wellOrdered P = true → reachable P (inOrder P).
Proof.
  intros Hwo. pose proof (run_in_order P P [] Hwo (λ d H, H)) as Hrun.
  by rewrite app_nil_r in Hrun.
Qed.


(** ** Autoscaling and the health check *)

Lemma scalingTargets_program vos :
  scalingTargets (program vos) = [todoAppScalingTarget; todoApiScalingTarget].
Proof.
  unfold scalingTargets. rewrite multi_staged, staged_filter by done. reflexivity.
Qed.

Lemma scalingPolicies_program vos :
  scalingPolicies (program vos) = [todoAppScalingPolicy; todoApiScalingPolicy].
Proof.
  unfold scalingPolicies. rewrite multi_staged, staged_filter by done. reflexivity.
Qed.

Lemma single_stage_unscaled vos :
  scalingTargets (CustomImage.program vos) = []
  ∧ scalingPolicies (CustomImage.program vos) = [].
Proof.
  unfold scalingTargets, scalingPolicies. rewrite single_staged.
  rewrite (staged_filter _ "awsClassic.appautoscaling.Target") by done.
  rewrite (staged_filter _ "awsClassic.appautoscaling.Policy") by done.
  split; reflexivity.
Qed.

(** C9, as stated, fails: the single-service stage declares a service and
    no scaling target for it. *)
Lemma single_stage_service_not_scaled :
  ¬ everyServiceScaled (CustomImage.program [sampleOption]).
Proof.
  intros Hclaim. destruct (Hclaim CustomImage.service) as (target & Htarget & _).
  - apply list_elem_of_In. vm_compute. auto.
  - destruct (single_stage_unscaled [sampleOption]) as [Hnone _].
    rewrite Hnone in Htarget. by apply elem_of_nil in Htarget.
Qed.

(** C9, amended.  For every service of the multi-service stage there is
    exactly one scaling target, on the desired count of that service in the
    [ecs] namespace with capacity bounds 1 and 10, and exactly one policy on
    that target and dimension: a step-scaling policy with cooldown 60 on the
    maximum of the metric, whose only step has no lower bound, upper bound
    0 and adjustment -1 (a change in capacity), so no step increases
    capacity.  The target is requested only after the service exists, and
    the policy only after the target.  The single-service stage declares
    neither a scaling target nor a policy. *)
Theorem autoscaling_attachment
    (vos : list CertificateDomainValidationOption) (svc : Decl) :
  svc ∈ services (program vos) →
  scalingTargets (CustomImage.program vos) = []
  ∧ scalingPolicies (CustomImage.program vos) = []
  ∧ length (scalingTargets (program vos)) = length (services (program vos))
  ∧ length (scalingPolicies (program vos)) = length (services (program vos))
  ∧ ∃ target policy,
    List.filter (λ t, scalesService t svc) (scalingTargets (program vos)) = [target]
    ∧ field "minCapacity" (d_args target) = Some (Num 1)
    ∧ field "maxCapacity" (d_args target) = Some (Num 10)
    ∧ field "resourceId" (d_args target)
      = Some (Interp [Str "service/"; cluster.@"clusterName"; Str "/"; svc.@"serviceName"])
    ∧ field "scalableDimension" (d_args target) = Some (Str "ecs:service:DesiredCount")
    ∧ field "serviceNamespace" (d_args target) = Some (Str "ecs")
    ∧ List.filter (λ p, policyOf p target) (scalingPolicies (program vos)) = [policy]
    ∧ field "policyType" (d_args policy) = Some (Str "StepScaling")
    ∧ field "resourceId" (d_args policy) = Some (target.@"resourceId")
    ∧ field "scalableDimension" (d_args policy) = Some (target.@"scalableDimension")
    ∧ field "serviceNamespace" (d_args policy) = Some (target.@"serviceNamespace")
    ∧ field "adjustmentType" (stepConfiguration policy) = Some (Str "ChangeInCapacity")
    ∧ field "cooldown" (stepConfiguration policy) = Some (Num 60)
    ∧ field "metricAggregationType" (stepConfiguration policy) = Some (Str "Maximum")
    ∧ stepAdjustments policy
      = [Obj ["metricIntervalUpperBound" :- Str "0"; "scalingAdjustment" :- Num (-1)]]
    ∧ (∀ step, step ∈ stepAdjustments policy →
         scalingAdjustment step = Some (-1)
         ∧ field "metricIntervalUpperBound" step = Some (Str "0")
         ∧ field "metricIntervalLowerBound" step = None)
    ∧ (∀ s, reachable (program vos) s →
         (d_name target ∈ attempted s → d_name svc ∈ created s)
         ∧ (d_name policy ∈ attempted s → d_name target ∈ created s)).
Proof.
  destruct (single_stage_unscaled vos) as [-> ->].
  rewrite services_program, scalingTargets_program, scalingPolicies_program.
  rewrite !elem_of_cons, elem_of_nil.
  pose proof (staged_after _ multi_names multi_plain vos) as Hafter.
  intros [->|[->|[]]]; (split; [done|]); (split; [done|]);
    (split; [done|]); (split; [done|]).
  - exists todoAppScalingTarget, todoAppScalingPolicy.
    split_and!; try reflexivity.
    + intros step ->%list_elem_of_singleton. by split_and!.
    + intros s Hrun. rewrite multi_staged in Hrun. split; intros Hreq.
      * apply (Hafter s todoAppScalingTarget); [done| |done|by_computation].
        apply (declared_in _ "todo-app-service-scaling-target"). reflexivity.
      * apply (Hafter s todoAppScalingPolicy); [done| |done|by_computation].
        apply (declared_in _ "todo-app-scaledown-policy"). reflexivity.
  - exists todoApiScalingTarget, todoApiScalingPolicy.
    split_and!; try reflexivity.
    + intros step ->%list_elem_of_singleton. by split_and!.
    + intros s Hrun. rewrite multi_staged in Hrun. split; intros Hreq.
      * apply (Hafter s todoApiScalingTarget); [done| |done|by_computation].
        apply (declared_in _ "todo-api-service-scaling-target"). reflexivity.
      * apply (Hafter s todoApiScalingPolicy); [done| |done|by_computation].
        apply (declared_in _ "todo-api-scaledown-policy"). reflexivity.
Qed.

(** C10.  A [GET /api/] request that the two library middlewares pass on is
    answered with status 200 and body [{status: 'ok'}], whatever the table
    client does; [/api/] is the health-check path of the api target
    group. *)
Theorem health_check_always_ok
    (bodyParser_json : Request → Response + Json) (cors : Request → option Response)
    (send : Command → option Json) (now : Z) (TABLE_NAME : Json)
    (req : Request) (reqBody : Json) :
  method req = GET → path req = "/api/" →
  bodyParser_json req = inr reqBody → cors req = None →
  app bodyParser_json cors send now TABLE_NAME req = json 200 (JObj ["status" :- JStr "ok"])
  ∧ healthCheckRequest todoApiTg = Some {| method := GET; path := "/api/" |}.
Proof.
  intros Hm Hp Hbody Hcors. split; [|reflexivity].
  unfold app, mounted. rewrite Hbody, Hcors, Hp, Hm. reflexivity.
Qed.

(** ** The statements at concrete runs *)

Lemma sample_reachable : reachable (program [sampleOption]) (inOrder (program [sampleOption])).
Proof. apply inOrder_reachable, program_ordered. Qed.

(** C7 at the api service and its rule, in the run in source order. *)
Lemma service_after_listeners_and_rule_witness :
  todoApiService ∈ services (program [sampleOption])
  ∧ d_name todoApiService ∈ attempted (inOrder (program [sampleOption]))
  ∧ d_name todoApiListenerRule ∈ created (inOrder (program [sampleOption])).
Proof.
  assert (todoApiService ∈ services (program [sampleOption])) as Hsvc.
  { apply list_elem_of_In. vm_compute. auto. }
  assert (d_name todoApiService ∈ attempted (inOrder (program [sampleOption]))) as Hreq.
  { apply (bool_decide_unpack _). vm_compute. exact I. }
  split; [exact Hsvc|]. split; [exact Hreq|].
  apply (service_after_listeners_and_rule
           (program [sampleOption]) (inOrder (program [sampleOption]))
           todoApiService todoApiListenerRule).
  - left. exists [sampleOption]. reflexivity.
  - exact sample_reachable.
  - exact Hsvc.
  - exact Hreq.
  - right. split; [|reflexivity]. apply list_elem_of_In. vm_compute. auto.
Defined.

(** C5 (amended) at the secure listener, in the run in source order. *)
Lemma secure_listener_after_certificate_request_witness :
  d_name todoListener ∈ attempted (inOrder (program [sampleOption]))
  ∧ d_name certificate ∈ created (inOrder (program [sampleOption])).
Proof.
  assert (d_name todoListener ∈ attempted (inOrder (program [sampleOption]))) as Hreq.
  { apply (bool_decide_unpack _). vm_compute. exact I. }
  split; [exact Hreq|].
  apply (secure_listener_after_certificate_request
           [sampleOption] (inOrder (program [sampleOption])) todoListener).
  - exact sample_reachable.
  - apply list_elem_of_In. vm_compute. auto.
  - reflexivity.
  - exact Hreq.
Defined.

Lemma degraded_reachable : reachable (program [sampleOption]) degradedRun.
Proof. apply (play_reachable _ degraded). vm_compute. reflexivity. Qed.

(** C6 at the run [degraded], which has come to rest. *)
Lemma certificate_failure_degraded_witness :
  d_name certificate ∈ failed degradedRun
  ∧ quiescent (program [sampleOption]) degradedRun
  ∧ report degradedRun = FailedWith [d_name certificate]
  ∧ (d_name todoListener ∉ attempted degradedRun)
  ∧ List.filter (λ l, bool_decide (d_name l ∈ created degradedRun))
      (listeners (program [sampleOption])) = [httpsRedirectListener]
  ∧ field "port" (d_args httpsRedirectListener) = Some (Num 80).
Proof.
  assert (d_name certificate ∈ failed degradedRun) as Hfail.
  { apply (bool_decide_unpack _). vm_compute. exact I. }
  assert (quiescent (program [sampleOption]) degradedRun) as Hq.
  { apply quiescentb_quiescent. vm_compute. reflexivity. }
  destruct (certificate_failure_degraded [sampleOption] degradedRun degraded_reachable Hfail)
    as (_ & Hlistener & _ & _ & _ & _ & _ & Hport & _ & _ & _ & _ & Hrest).
  destruct (Hrest Hq eq_refl) as (_ & _ & Honly).
  split; [exact Hfail|]. split; [exact Hq|]. split; [reflexivity|].
  split; [exact Hlistener|]. split; [exact Honly|exact Hport].
Defined.

(** C9 at the api service. *)
Lemma autoscaling_attachment_witness :
  todoApiService ∈ services (program [sampleOption])
  ∧ ∃ target,
      List.filter (λ t, scalesService t todoApiService)
        (scalingTargets (program [sampleOption])) = [target]
      ∧ field "minCapacity" (d_args target) = Some (Num 1)
      ∧ field "maxCapacity" (d_args target) = Some (Num 10)
      ∧ field "scalableDimension" (d_args target) = Some (Str "ecs:service:DesiredCount").
Proof.
  assert (todoApiService ∈ services (program [sampleOption])) as Hsvc.
  { apply list_elem_of_In. vm_compute. auto. }
  split; [exact Hsvc|].
  destruct (autoscaling_attachment [sampleOption] todoApiService Hsvc)
    as (_ & _ & _ & _ & target & policy & Htarget & Hmin & Hmax & _ & Hdim & _).
  exists target. split; [exact Htarget|]. split; [exact Hmin|]. split; [exact Hmax|exact Hdim].
Defined.

(** C10 with a table that rejects every command. *)
Lemma health_check_always_ok_witness :
  app (λ _, inr (JObj [])) (λ _, None) unreachableTable 0 JUndefined
      {| method := GET; path := "/api/" |}
  = json 200 (JObj ["status" :- JStr "ok"]).
Proof.
  apply (health_check_always_ok (λ _, inr (JObj [])) (λ _, None) unreachableTable 0
           JUndefined {| method := GET; path := "/api/" |} (JObj []));
    reflexivity.
Defined.

(** * Part III: further properties *)

(** ** The deduplicator, for any comparator *)

Section anyComparator.
Context {A : Type} (fn : A → A → bool).

Lemma unseen_take (arr : list A) i x :
  unseen fn (take i arr) x = true ↔
  fn x x = true ∧ ∀ j y, (j < i)%nat → arr !! j = Some y → fn x y = false.
Proof.
  unfold unseen. rewrite andb_true_iff, negb_true_iff. split.
  - intros [Hex Hxx]. split; [done|]. intros j y Hj Hy.
    apply not_true_is_false. intros Hxy.
    assert (existsb (fn x) (take i arr) = true); [|congruence].
    apply existsb_exists. exists y. split; [|done].
    apply list_elem_of_In, list_elem_of_lookup. exists j. by rewrite lookup_take_lt.
  - intros [Hxx Hall]. split; [|done]. apply not_true_is_false.
    intros (y & (j & Hj)%list_elem_of_In%list_elem_of_lookup & Hxy)%existsb_exists.
    apply lookup_take_Some in Hj as [Hy Hlt]. rewrite (Hall j y) in Hxy; done.
Qed.

Lemma idx_from_elem_any seen l i :
  i ∈ idx_from fn seen l ↔
  (length seen ≤ i)%nat ∧
  ∃ x, (seen ++ l) !! i = Some x ∧ unseen fn (take i (seen ++ l)) x = true.
Proof.
  revert seen. induction l as [|x rest IH]; intros seen; simpl.
  - rewrite elem_of_nil, app_nil_r. split; [done|].
    intros (Hle & y & Hy%lookup_lt_Some & _). lia.
  - specialize (IH (seen ++ [x])). rewrite <- app_assoc, length_app in IH. simpl in IH.
    assert (unseen fn seen x = true ↔
            ∃ y, (seen ++ x :: rest) !! length seen = Some y
                 ∧ unseen fn (take (length seen) (seen ++ x :: rest)) y = true) as Hhere.
    { rewrite take_app_length, list_lookup_middle by done.
      split; [by eauto|]. by intros (y & [= <-] & ?). }
    destruct (unseen fn seen x) eqn:E.
    + rewrite elem_of_cons, IH. split.
      * intros [->|[? ?]]; [|split; [lia|done]]. split; [lia|]. by apply Hhere.
      * intros [Hle Hx]. destruct (decide (i = length seen)) as [->|]; [by left|].
        right. split; [lia|done].
    + rewrite IH. split.
      * intros [? ?]. split; [lia|done].
      * intros [Hle Hx]. destruct (decide (i = length seen)) as [->|].
        -- apply Hhere in Hx. done.
        -- split; [lia|done].
Qed.

Lemma idx_from_sorted_any seen l : StronglySorted lt (idx_from fn seen l).
Proof.
  revert seen. induction l as [|x rest IH]; intros seen; simpl; [constructor|].
  destruct (unseen fn seen x); [|done].
  constructor; [done|]. apply Forall_forall. intros i Hi.
  apply idx_from_elem_any in Hi as [Hle _]. rewrite length_app in Hle. simpl in Hle. lia.
Qed.

Lemma unseen_fewer seen seen' x :
  (∀ y, y ∈ seen' → y ∈ seen) → unseen fn seen x = true → unseen fn seen' x = true.
Proof.
  unfold unseen. rewrite !andb_true_iff, !negb_true_iff. intros Hsub [Hex Hxx].
  split; [|done]. apply not_true_is_false.
  intros (y & Hy%list_elem_of_In & Hxy)%existsb_exists.
  assert (existsb (fn x) seen = true); [|congruence].
  apply existsb_exists. exists y. split; [by apply list_elem_of_In, Hsub|done].
Qed.

Lemma dedup_from_again l : ∀ seen seen',
  (∀ y, y ∈ seen' → y ∈ seen) →
  dedup_from fn seen' (dedup_from fn seen l) = dedup_from fn seen l.
Proof.
  induction l as [|x rest IH]; intros seen seen' Hsub; simpl; [done|].
  destruct (unseen fn seen x) eqn:E.
  - simpl. rewrite (unseen_fewer seen seen' x Hsub E). f_equal. apply IH.
    intros y. rewrite !elem_of_app. intros [?|?]; [left; by apply Hsub|by right].
  - apply IH. intros y Hy. apply elem_of_app. left. by apply Hsub.
Qed.

Lemma dedup_from_sublist l : ∀ seen, sublist (dedup_from fn seen l) l.
Proof.
  induction l as [|x rest IH]; intros seen; simpl; [constructor|].
  destruct (unseen fn seen x); [by apply sublist_skip|by apply sublist_cons].
Qed.

Lemma dedup_from_self l : ∀ seen x, x ∈ dedup_from fn seen l → fn x x = true.
Proof.
  induction l as [|y rest IH]; intros seen x; simpl; [by intros ?%elem_of_nil|].
  destruct (unseen fn seen y) eqn:E; [|apply IH].
  intros [->|?]%elem_of_cons; [|by eapply IH].
  unfold unseen in E. by apply andb_true_iff in E as [_ ?].
Qed.

(** X1.  Whatever the comparator, [uniqWith] returns the elements at the
    kept positions, in input order: those that compare equal to themselves
    and to no element before them in the input, retained or not. *)
Theorem uniqWith_kept_positions (arr : list A) :
  ∃ positions : list nat,
    StronglySorted lt positions
    ∧ (∀ i, i ∈ positions ↔ isKeptPosition fn arr i)
    ∧ Some <$> uniqWith arr fn = (arr !!.) <$> positions.
Proof.
  exists (idx_from fn [] arr). split_and!.
  - apply idx_from_sorted_any.
  - intros i. rewrite idx_from_elem_any. simpl. unfold isKeptPosition. split.
    + intros (_ & x & Hx & Hun). exists x. split; [done|]. by apply unseen_take.
    + intros (x & Hx & Hkept). split; [lia|]. exists x. split; [done|].
      by apply unseen_take.
  - rewrite uniqWith_dedup. apply (idx_from_lookup fn).
Qed.

(** X2.  Whatever the comparator, the output of [uniqWith] is a
    subsequence of its input, holds only elements that compare equal to
    themselves, and is left unchanged by a second pass; the empty sequence
    gives the empty sequence. *)
Theorem uniqWith_any_comparator (arr : list A) :
  sublist (uniqWith arr fn) arr
  ∧ (∀ x, x ∈ uniqWith arr fn → fn x x = true)
  ∧ uniqWith (uniqWith arr fn) fn = uniqWith arr fn
  ∧ uniqWith [] fn = [].
Proof.
  rewrite !uniqWith_dedup. split_and!.
  - apply dedup_from_sublist.
  - apply dedup_from_self.
  - by apply dedup_from_again.
  - reflexivity.
Qed.
End anyComparator.

(** ** Names of declarations *)

Lemma imap_names {A} (f : nat → A → Decl) (g : nat → string) (l : list A) :
  (∀ i x, d_name (f i x) = g i) → d_name <$> imap f l = g <$> seq 0 (length l).
Proof.
  revert f g. induction l as [|x l IH]; intros f g Hfg; [done|].
  rewrite imap_cons, fmap_cons. simpl. rewrite Hfg. f_equal.
  rewrite <- fmap_S_seq, <- list_fmap_compose. apply IH. intros i y. apply Hfg.
Qed.

Lemma certificateValidation_names vos :
  d_name <$> certificateValidation vos
  = callbackNames (length (uniqWith vos sameRecord)).
Proof.
  rewrite certificateValidation_split, fmap_app. unfold callbackNames. f_equal.
  - unfold validationRecords. by apply imap_names.
  - rewrite (imap_names _ (λ index, YOUR_DOMAIN +:+ "-cert-dns-validation-" +:+ pretty index))
      by done.
    unfold validationRecords. by rewrite length_imap.
Qed.

Lemma callbackNames_NoDup n : NoDup (callbackNames n).
Proof.
  unfold callbackNames. apply NoDup_app. split_and!.
  - apply NoDup_fmap_2; [|apply NoDup_seq].
    intros i j Heq. do 2 apply append_inj_r in Heq. by apply (inj (pretty (A:=nat))).
  - intros n1 (i & -> & _)%list_elem_of_fmap (j & Heq & _)%list_elem_of_fmap.
    apply append_inj_r in Heq. discriminate Heq.
  - apply NoDup_fmap_2; [|apply NoDup_seq].
    intros i j Heq. do 2 apply append_inj_r in Heq. by apply (inj (pretty (A:=nat))).
Qed.

Lemma staged_names decls vos :
  NoDup (d_name <$> decls) →
  forallb (λ d, negb (callbackName (d_name d))) decls = true →
  NoDup (d_name <$> staged decls vos).
Proof.
  intros Hnames Hplain. unfold staged. rewrite fmap_app. apply NoDup_app. split_and!.
  - done.
  - intros n (d & -> & Hd)%list_elem_of_fmap (d' & Heq & Hd')%list_elem_of_fmap.
    apply certificateValidation_name in Hd'. rewrite <- Heq in Hd'.
    rewrite forallb_forall in Hplain. apply list_elem_of_In, Hplain in Hd.
    by rewrite Hd' in Hd.
  - rewrite certificateValidation_names. apply callbackNames_NoDup.
Qed.

(** X3.  Whatever the certificate authority answers, no two declarations
    of a stage program share a logical name. *)
Theorem program_names_unique (vos : list CertificateDomainValidationOption) :
  NoDup (d_name <$> program vos) ∧ NoDup (d_name <$> CustomImage.program vos).
Proof.
  split.
  - rewrite multi_staged. apply staged_names; [apply multi_names|apply multi_plain].
  - rewrite single_staged. apply staged_names; [apply single_names|apply single_plain].
Qed.

(** X4.  The logical names the callback declares depend only on how many
    distinct triples the challenges have: two answers with as many distinct
    triples, a reordering for one, give the same names in the same order. *)
Theorem callback_names_by_count (vos vos' : list CertificateDomainValidationOption) :
  size (list_to_set (triple <$> vos) : gset (string * string * string))
  = size (list_to_set (triple <$> vos') : gset (string * string * string)) →
  d_name <$> certificateValidation vos = d_name <$> certificateValidation vos'
  ∧ d_name <$> CustomImage.certificateValidation vos
    = d_name <$> CustomImage.certificateValidation vos'.
Proof.
  intros Hsize.
  change CustomImage.certificateValidation with certificateValidation.
  rewrite !certificateValidation_names, !uniqWith_length, Hsize. done.
Qed.

(** X4 at a reordering of two challenges. *)
Lemma callback_names_by_count_witness :
  d_name <$> certificateValidation [sampleOption; ch "uncld.net" "_b.uncld.net." "CNAME" "_c."]
  = d_name <$> certificateValidation [ch "uncld.net" "_b.uncld.net." "CNAME" "_c."; sampleOption].
Proof.
  apply (callback_names_by_count
           [sampleOption; ch "uncld.net" "_b.uncld.net." "CNAME" "_c."]
           [ch "uncld.net" "_b.uncld.net." "CNAME" "_c."; sampleOption]).
  rewrite <- !uniqWith_length. reflexivity.
Defined.

(** ** Runs of the stage programs *)

Lemma staged_ordered decls vos :
  wellOrdered decls = true →
  forallb (λ d, negb (callbackName (d_name d))) decls = true →
  "hostedZone" ∈ d_name <$> decls → "alb-certificate" ∈ d_name <$> decls →
  wellOrdered (staged decls vos) = true.
Proof.
  intros Hwo Hplain Hzone Hcert.
  assert (∀ n, callbackName n = true → n ∉ reverse (d_name <$> decls)) as Hfresh.
  { intros n Hn Hin. rewrite elem_of_reverse in Hin.
    apply list_elem_of_fmap in Hin as (d & -> & Hd).
    rewrite forallb_forall in Hplain. apply list_elem_of_In, Hplain in Hd.
    by rewrite Hn in Hd. }
  unfold wellOrdered, staged. rewrite certificateValidation_split.
  rewrite !wellOrdered_from_app, app_nil_r, !andb_true_iff. split_and!.
  - exact Hwo.
  - apply (records_ordered _ 0%nat).
    + by apply elem_of_reverse.
    + by apply elem_of_reverse.
    + intros j c _. by apply Hfresh.
  - apply (waits_ordered _ 0%nat).
    + apply elem_of_app. right. by apply elem_of_reverse.
    + intros r Hr. apply elem_of_app. left. apply elem_of_reverse.
      by apply list_elem_of_fmap_2.
    + intros j r _. rewrite elem_of_app, elem_of_reverse. intros [Hin|Hin].
      * apply list_elem_of_fmap in Hin as (d & Hname & Hd).
        unfold validationRecords in Hd.
        apply elem_of_lookup_imap in Hd as (i & c & -> & _). discriminate Hname.
      * by apply Hfresh in Hin.
Qed.

Lemma stageProgram_ordered P : stageProgram P → wellOrdered P = true.
Proof.
  intros [[vos ->]|[vos ->]].
  - apply program_ordered.
  - rewrite single_staged. apply staged_ordered;
      [vm_compute; reflexivity|apply single_plain|by_computation|by_computation].
Qed.

(** In a run at rest in which nothing was refused, declarations in
    dependency order have all been created. *)
Lemma at_rest_created P s rest : ∀ seen,
  quiescent P s → failed s = [] →
  wellOrdered_from seen rest = true →
  (∀ n, n ∈ seen → n ∈ created s) → (∀ d, d ∈ rest → d ∈ P) →
  ∀ d, d ∈ rest → d_name d ∈ created s.
Proof.
  induction rest as [|d0 rest IH]; intros seen Hq Hnone Hwo Hseen Hin d Hd;
    [by apply elem_of_nil in Hd|].
  simpl in Hwo. rewrite !andb_true_iff, forallb_forall in Hwo.
  destruct Hwo as [[_ Hdeps] Hwo].
  assert (d_name d0 ∈ created s) as Hd0.
  { assert (d_name d0 ∈ attempted s) as Hreq.
    { apply (quiescent_attempted P); [done|apply Hin; left|].
      intros r Hr%list_elem_of_In. apply Hseen.
      by apply Hdeps, bool_decide_eq_true in Hr. }
    unfold attempted in Hreq. by rewrite Hnone, app_nil_r in Hreq. }
  apply elem_of_cons in Hd as [->|Hd]; [done|].
  apply (IH (d_name d0 :: seen)); [done..| | |done].
  - intros n [->|?]%elem_of_cons; [done|by apply Hseen].
  - intros d' Hd'. apply Hin. by right.
Qed.

(** X5.  A run of a stage program that has come to rest with no request
    refused has created every declared resource and reports success: no
    declaration waits for something that is never declared, or for
    itself. *)
Theorem at_rest_complete (P : list Decl) (s : Run) :
  stageProgram P → reachable P s → quiescent P s → failed s = [] →
  report s = Succeeded ∧ ∀ d, d ∈ P → d_name d ∈ created s.
Proof.
  intros HP _ Hq Hnone. split; [unfold report; by rewrite Hnone|].
  apply (at_rest_created P s P []); [done..|by apply stageProgram_ordered| |done].
  intros n Hn. by apply elem_of_nil in Hn.
Qed.

(** X5 at the single-service stage, run in source order. *)
Lemma at_rest_complete_witness :
  quiescent (CustomImage.program [sampleOption]) (inOrder (CustomImage.program [sampleOption]))
  ∧ ∀ d, d ∈ CustomImage.program [sampleOption] →
         d_name d ∈ created (inOrder (CustomImage.program [sampleOption])).
Proof.
  assert (quiescent (CustomImage.program [sampleOption])
            (inOrder (CustomImage.program [sampleOption]))) as Hq.
  { apply quiescentb_quiescent. vm_compute. reflexivity. }
  split; [exact Hq|].
  apply (at_rest_complete (CustomImage.program [sampleOption])
           (inOrder (CustomImage.program [sampleOption]))).
  - right. exists [sampleOption]. reflexivity.
  - apply inOrder_reachable. vm_compute. reflexivity.
  - exact Hq.
  - reflexivity.
Defined.

Lemma stageProgram_names P : stageProgram P → NoDup (d_name <$> P).
Proof.
  intros [[vos ->]|[vos ->]].
  - rewrite multi_staged. apply staged_names; [apply multi_names|apply multi_plain].
  - rewrite single_staged. apply staged_names; [apply single_names|apply single_plain].
Qed.

Lemma stageProgram_callback P d :
  stageProgram P → d ∈ P → callbackName (d_name d) = true →
  ∃ vos, d ∈ certificateValidation vos.
Proof.
  intros [[vos ->]|[vos ->]] Hd Hn; exists vos.
  - apply elem_of_app in Hd as [Hd|Hd]; [|done].
    pose proof multi_plain as Hplain. rewrite forallb_forall in Hplain.
    apply list_elem_of_In, Hplain in Hd. by rewrite Hn in Hd.
  - rewrite single_staged in Hd. apply elem_of_app in Hd as [Hd|Hd]; [|done].
    pose proof single_plain as Hplain. rewrite forallb_forall in Hplain.
    apply list_elem_of_In, Hplain in Hd. by rewrite Hn in Hd.
Qed.

(** X6.  A declaration of the callback is requested only after the
    certificate request has returned; a record moreover only after the
    hosted-zone lookup, and a validation wait only after the one record it
    watches has been created. *)
Theorem validation_after_record (P : list Decl) (s : Run) (d : Decl) :
  stageProgram P → reachable P s →
  d ∈ P → callbackName (d_name d) = true → d_name d ∈ attempted s →
  d_name certificate ∈ created s
  ∧ (hasType "awsClassic.route53.Record" d = true → d_name hostedZone ∈ created s)
  ∧ (hasType "awsClassic.acm.CertificateValidation" d = true →
     ∃ r, watchedRecords d = [r] ∧ r ∈ created s).
Proof.
  intros HP Hrun Hd Hcb Hreq.
  destruct (reachable_deps _ _ Hrun _ Hreq) as (d' & Hd' & Hname & Hdeps).
  apply (NoDup_fmap_eq d_name P) in Hname; [|by apply stageProgram_names|done..].
  subst d'.
  destruct (stageProgram_callback P d HP Hd Hcb) as (vos & Hin).
  apply certificateValidation_elem in Hin as (i & [(c & ->)|(r & ->)]).
  - split_and!.
    + apply Hdeps. unfold deps. simpl. set_solver.
    + intros _. apply Hdeps. unfold deps. simpl. set_solver.
    + discriminate.
  - split_and!.
    + apply Hdeps. unfold deps. simpl. set_solver.
    + discriminate.
    + intros _. exists (d_name r). split; [reflexivity|].
      apply Hdeps. unfold deps. simpl. set_solver.
Qed.

(** X6 at the validation wait of the run in source order. *)
Lemma validation_after_record_witness :
  d_name (certDnsValidation (certValidationRecord sampleOption 0) 0)
    ∈ attempted (inOrder (program [sampleOption]))
  ∧ d_name (certValidationRecord sampleOption 0) ∈ created (inOrder (program [sampleOption])).
Proof.
  assert (d_name (certDnsValidation (certValidationRecord sampleOption 0) 0)
            ∈ attempted (inOrder (program [sampleOption]))) as Hreq.
  { apply (bool_decide_unpack _). vm_compute. exact I. }
  split; [exact Hreq|].
  destruct (validation_after_record (program [sampleOption]) (inOrder (program [sampleOption]))
              (certDnsValidation (certValidationRecord sampleOption 0) 0))
    as (_ & _ & Hwait).
  - left. exists [sampleOption]. reflexivity.
  - exact sample_reachable.
  - apply list_elem_of_In. vm_compute. auto 50.
  - reflexivity.
  - exact Hreq.
  - destruct (Hwait eq_refl) as (r & Hr & Hcreated).
    injection Hr as <-. exact Hcreated.
Defined.

(** X7.  The callback of the single-service stage makes the declarations
    of the multi-service stage's: as many records, and as many waits, as
    the challenges have distinct triples, and none for no challenge. *)
Theorem single_stage_callback (vos : list CertificateDomainValidationOption) :
  CustomImage.certificateValidation vos = certificateValidation vos
  ∧ length (dnsRecords (CustomImage.certificateValidation vos))
    = size (list_to_set (triple <$> vos) : gset (string * string * string))
  ∧ length (validationWaits (CustomImage.certificateValidation vos))
    = size (list_to_set (triple <$> vos) : gset (string * string * string))
  ∧ CustomImage.certificateValidation [] = []
  ∧ CustomImage.program [] = CustomImage.declarations.
Proof.
  change CustomImage.certificateValidation with certificateValidation.
  split_and!; [done| | |done|reflexivity].
  - rewrite dnsRecords_made. unfold validationRecords.
    rewrite length_imap. apply uniqWith_length.
  - rewrite validationWaits_made, length_imap. unfold validationRecords.
    rewrite length_imap. apply uniqWith_length.
Qed.

(** X12.  In a run of a stage program, a declaration that waits, directly
    or through other declarations, for a node whose request was refused is
    never requested. *)
Theorem refused_blocks_dependents (P : list Decl) (s : Run) (d : Decl) (r : string) :
  stageProgram P → reachable P s →
  d ∈ P → needs P d r → r ∈ failed s →
  d_name d ∉ attempted s.
Proof.
  intros HP Hrun Hd Hneeds Hfail.
  assert (∀ d, d ∈ P → d_name d ∈ attempted s → ∀ n, n ∈ deps d → n ∈ created s) as Hafter.
  { intros d0 Hd0 Hreq n Hn.
    destruct (reachable_deps _ _ Hrun _ Hreq) as (d' & Hd' & Hname & Hdeps).
    apply (NoDup_fmap_eq d_name P) in Hname; [|by apply stageProgram_names|done..].
    subst d'. by apply Hdeps. }
  induction Hneeds as [d r Hr|d m r Hm Hin _ IH]; intros Hreq.
  - apply (reachable_failed_not_created P s r Hrun Hfail). by apply (Hafter d).
  - apply (IH Hin Hfail). unfold attempted. apply elem_of_app. left. by apply (Hafter d).
Qed.

(** X12 at the api scaling policy, in the run [degraded]. *)
Lemma refused_blocks_dependents_witness :
  needs (program [sampleOption]) todoApiScalingPolicy (d_name certificate)
  ∧ d_name certificate ∈ failed degradedRun
  ∧ (d_name todoApiScalingPolicy ∉ attempted degradedRun).
Proof.
  assert (∀ n d, declared (program [sampleOption]) n = Some d → d ∈ program [sampleOption])
    as Hin by (intros n d; apply declared_in).
  assert (needs (program [sampleOption]) todoApiScalingPolicy (d_name certificate)) as Hneeds.
  { apply (needs_via _ _ todoApiScalingTarget);
      [apply (bool_decide_unpack _); vm_compute; exact I
      |apply (Hin "todo-api-service-scaling-target"); reflexivity|].
    apply (needs_via _ _ todoApiService);
      [apply (bool_decide_unpack _); vm_compute; exact I
      |apply (Hin "todo-api-service"); reflexivity|].
    apply (needs_via _ _ todoListener);
      [apply (bool_decide_unpack _); vm_compute; exact I
      |apply (Hin "todo-listener"); reflexivity|].
    apply needs_direct. apply (bool_decide_unpack _); vm_compute; exact I. }
  assert (d_name certificate ∈ failed degradedRun) as Hfail.
  { apply (bool_decide_unpack _). vm_compute. exact I. }
  split; [exact Hneeds|]. split; [exact Hfail|].
  apply (refused_blocks_dependents (program [sampleOption]) degradedRun
           todoApiScalingPolicy (d_name certificate)).
  - left. exists [sampleOption]. reflexivity.
  - exact degraded_reachable.
  - apply (Hin "todo-api-scaledown-policy"). reflexivity.
  - exact Hneeds.
  - exact Hfail.
Defined.

(** ** The routes of the todo API *)

Section routes.
Variable bodyParser_json : Request → Response + Json.
Variable cors : Request → option Response.

#[local] Opaque String.eqb.

Ltac route_cases req :=
  destruct (segments (path req)) as [|a [|b [|c [|? ?]]]]; simpl;
  try destruct (String.eqb a "api"); simpl;
  try destruct (String.eqb "todos" b); simpl;
  destruct (method req); simpl.




(** X11.  Of the parsed body, creating a todo reads only [text] and
    updating one only [completed]; no other request reads the body.  A 201
    answer is to a POST, and carries the clock as [id], the body's [text]
    and [completed: false]. *)
Theorem handlers_read_named_fields
    (bodyParser_json' : Request → Response + Json)
    (send : Command → option Json) (now : Z) (TABLE_NAME : Json)
    (req : Request) (reqBody reqBody' : Json) :
  bodyParser_json req = inr reqBody → bodyParser_json' req = inr reqBody' →
  cors req = None →
  let res := app bodyParser_json cors send now TABLE_NAME req in
  let res' := app bodyParser_json' cors send now TABLE_NAME req in
  (method req = POST → prop "text" reqBody = prop "text" reqBody' → res = res')
  ∧ (method req = PATCH → prop "completed" reqBody = prop "completed" reqBody' → res = res')
  ∧ (method req ≠ POST → method req ≠ PATCH → res = res')
  ∧ (status res = 201 →
       method req = POST
       ∧ prop "id" (body res) = JStr (pretty now)
       ∧ prop "text" (body res) = prop "text" reqBody
       ∧ prop "completed" (body res) = JBool false).
Proof.
  intros Hbody Hbody' Hcors. cbv zeta. unfold app, mounted.
  rewrite Hbody, Hbody', Hcors.
  route_cases req; unfold getTodos, postTodo, patchTodo; simpl;
    (split_and!; [intros ? Heq; rewrite ?Heq; done
                 |intros ? Heq; rewrite ?Heq; done
                 |done
                 |repeat match goal with |- context [send ?c] => destruct (send c) end;
                  simpl; done]).
Qed.
End routes.

#[local] Transparent String.eqb.




(** X11 at two [POST /api/todos] bodies with the same text. *)
Lemma handlers_read_named_fields_witness :
  app (λ _, inr (JObj ["text" :- JStr "milk"; "completed" :- JBool true]))
      (λ _, None) (λ _, Some (JObj [])) 1700000000000 (JStr "abe-todos")
      {| method := POST; path := "/api/todos" |}
  = app (λ _, inr (JObj ["text" :- JStr "milk"; "id" :- JStr "7"]))
      (λ _, None) (λ _, Some (JObj [])) 1700000000000 (JStr "abe-todos")
      {| method := POST; path := "/api/todos" |}.
Proof.
  destruct (handlers_read_named_fields
              (λ _, inr (JObj ["text" :- JStr "milk"; "completed" :- JBool true])) (λ _, None)
              (λ _, inr (JObj ["text" :- JStr "milk"; "id" :- JStr "7"]))
              (λ _, Some (JObj [])) 1700000000000 (JStr "abe-todos")
              {| method := POST; path := "/api/todos" |}
              (JObj ["text" :- JStr "milk"; "completed" :- JBool true])
              (JObj ["text" :- JStr "milk"; "id" :- JStr "7"])
              eq_refl eq_refl eq_refl) as (Hpost & _).
  apply Hpost; reflexivity.
Defined.
